(** * Fire-spread visualisation: boundary sampler, spread-rate model, animator

    A shallow embedding of [script.js] and of its near-duplicate variant
    (the two are one script with a handful of constants changed), together
    with the properties the design document states about them.

    JavaScript numbers are modelled as real numbers ([R]): [Math.cos],
    [Math.sin], [Math.exp], [Math.sqrt], [Math.abs], [Math.min] and
    [Math.PI] are the functions and the constant of the same name of the
    real-number library.  Rounding, infinities and NaN are therefore outside
    the model; every statement below is about finite inputs and exact
    arithmetic. *)

From Stdlib Require Import String.
From Stdlib Require Import Reals Lra Lia List Bool Arith.
From Stdlib Require Import Machin Rgeom Sorted.
Import ListNotations.

Open Scope R_scope.

(** ** Fire-front boundary generator *)

Module Boundary.

(** A boundary point: the object literal [{ x: x, y: y }]. *)
Record Point : Type := mkPoint { x : R; y : R }.

(** The block of [computeBoundaryPointsRecursively] that decides whether
    [newPoint] is pushed onto [points]: it is pushed when the array is empty
    or when it lies at least [minDistance] away from the last pushed point. *)
Definition pushIfSpaced (points : list Point) (newPoint : Point)
    (minDistance : R) : list Point :=
  if (length points =? 0)%nat then points ++ [newPoint]
  else
    let lastPoint := nth (length points - 1) points newPoint in
    let dx := x newPoint - x lastPoint in
    let dy := y newPoint - y lastPoint in
    let dist := sqrt (dx * dx + dy * dy) in
    if Rge_dec dist minDistance then points ++ [newPoint] else points.

(** [computeBoundaryPointsRecursively]; [fuel] bounds the depth of the call
    stack, [None] is a stack that was not deep enough. *)
Fixpoint computeBoundaryPointsRecursively (fuel : nat)
    (theta baseRadiusPx windAngleRad k : R) (points : list Point)
    (stepIncrement minDistance : R) : option (list Point) :=
  match fuel with
  | O => None
  | S fuel' =>
      if Rgt_dec theta (2 * PI) then Some points
      else
        let r := baseRadiusPx * (1 + k * cos (theta - windAngleRad)) in
        let x := r * cos theta in
        let y := r * sin theta in
        let newPoint := {| x := x; y := y |} in
        computeBoundaryPointsRecursively fuel' (theta + stepIncrement)
          baseRadiusPx windAngleRad k
          (pushIfSpaced points newPoint minDistance)
          stepIncrement minDistance
  end.

(** [getCustomFireFrontPoints]; the default parameter [minDistance = 3] is
    an optional argument. *)
Definition getCustomFireFrontPoints (fuel : nat)
    (baseRadiusPx windAngleDeg directionalFactor : R)
    (minDistance : option R) : option (list Point) :=
  let minDistance := match minDistance with Some m => m | None => 3 end in
  let windAngleRad := windAngleDeg * PI / 180 in
  let weightMultiplier := 1.5 in
  let k := (directionalFactor - 1) * weightMultiplier in
  let stepIncrement := 0.01 in
  computeBoundaryPointsRecursively fuel 0 baseRadiusPx windAngleRad k []
    stepIncrement minDistance.

(** *** Vocabulary of the statements *)

(** Euclidean distance between two points. *)
Definition distance (p q : Point) : R :=
  sqrt ((x p - x q) * (x p - x q) + (y p - y q) * (y p - y q)).

(** The point of the modulated circle at angle [theta]. *)
Definition polarPoint (baseRadius windDirectionRad k theta : R) : Point :=
  let r := baseRadius * (1 + k * cos (theta - windDirectionRad)) in
  mkPoint (r * cos theta) (r * sin theta).

(** One call of the sampler at angle [theta], as a step on the array. *)
Definition pushAt (baseRadiusPx windAngleRad k minDistance : R)
    (points : list Point) (theta : R) : list Point :=
  pushIfSpaced points (polarPoint baseRadiusPx windAngleRad k theta)
    minDistance.

(** The angles [theta], [theta + step], ... visited by [n] successive calls. *)
Fixpoint visited (n : nat) (theta step : R) : list R :=
  match n with
  | O => []
  | S n' => theta :: visited n' (theta + step) step
  end.

(** The design document's sampling: angle number [i] is [i * 0.01]. *)
Definition sampleAngles (n : nat) : list R :=
  map (fun i => INR i * 0.01) (seq 0 n).

(** The design document's acceptance rule: a candidate is appended when it
    is the first point or when it is at least [minSpacing] away from the
    previously accepted point, the last one of the sequence so far. *)
Definition specAccept (minSpacing : R) (accepted : list Point)
    (candidate : Point) : list Point :=
  match rev accepted with
  | [] => [candidate]
  | previous :: _ =>
      if Rle_dec minSpacing (distance candidate previous)
      then accepted ++ [candidate] else accepted
  end.

(** The design document's generator, over the first [n] sample angles. *)
Definition specBoundary (n : nat)
    (baseRadius windDirectionDeg directionalFactor minSpacing : R)
    : list Point :=
  let windDirectionRad := windDirectionDeg * PI / 180 in
  let k := (directionalFactor - 1) * 1.5 in
  fold_left (specAccept minSpacing)
    (map (polarPoint baseRadius windDirectionRad k) (sampleAngles n)) [].

(** Consecutive points are at least [d] apart. *)
Definition spaced (d : R) (points : list Point) : Prop :=
  forall i p q,
    nth_error points i = Some p ->
    nth_error points (S i) = Some q ->
    d <= distance q p.

(** The spacing in force: the argument, or 3 when it is left out. *)
Definition minSpacingOf (minDistance : option R) : R :=
  match minDistance with Some m => m | None => 3 end.

End Boundary.

(** ** The two variants of the script *)

(** [script.js] and its near-duplicate differ, as far as this development is
    concerned, in the display scale factor, in the fuel class chosen for
    woodland, in the reference point of the meter-to-pixel conversion and in
    one label text. *)
Record Variant : Type := mkVariant {
  displayScaleFactor : R;
  (** value of [fuelType] when the land cover is ['forest'] or ['wood'] *)
  woodlandFuelType : string;
  (** [currentCenter || fireStartLatLng] rather than [fireStartLatLng] *)
  prefersCurrentCenter : bool;
  (** text of the reasoning label after [clearFire] *)
  reasoningCleared : string
}.

Definition script_js : Variant :=
  {| displayScaleFactor := 5;
     woodlandFuelType := "sparse";
     prefersCurrentCenter := true;
     reasoningCleared := "Reasoning: Not set" |}.

Definition script_variant : Variant :=
  {| displayScaleFactor := 1;
     woodlandFuelType := "dense";
     prefersCurrentCenter := false;
     reasoningCleared := "Reasoning: None" |}.

(** ** Environmental-to-rate model *)

Module Environment.

(** The fields of [data.current] the script reads; [precip_mm] may be
    absent (it is read as [data.current.precip_mm || 0]). *)
Record Current : Type := mkCurrent {
  temp_c : R;
  wind_kph : R;
  wind_degree : R;
  humidity : R;
  precip_mm : option R
}.

Definition windSpeedMs (cur : Current) : R := wind_kph cur / 3.6.

(** [fuelType] in the callback of [Promise.all]. *)
Definition fuelType (v : Variant) (landCover : string) : string :=
  if (landCover =? "forest")%string || (landCover =? "wood")%string
  then woodlandFuelType v else "sparse".

(** The value assigned to [effectiveSpreadRate] by
    [updateEnvironmentalData], from the weather record, the slope and the
    land cover the three lookups resolved to. *)
Definition computeSpreadRate (v : Variant) (cur : Current) (slope : R)
    (landCover : string) : R :=
  let temperature := temp_c cur in
  let windSpeedMs := wind_kph cur / 3.6 in
  let humidity := humidity cur in
  let precip_mm := match precip_mm cur with Some p => p | None => 0 end in
  let windModifier := exp (0.05 * windSpeedMs) in
  let fuelType := fuelType v landCover in
  let baseSpreadRate := 1.0 in
  let temperatureModifier := 1 + ((temperature - 20) * 0.05) in
  let humidityModifier := 1 - ((humidity / 100) * 0.5) in
  let precipitationModifier := 1 - Rmin 0.5 (precip_mm * 0.2) in
  let slopeModifier := exp (1.0 * (slope / 100)) in
  let fuelModifier := if (fuelType =? "dense")%string then 1.2 else 1.0 in
  let landCoverModifier :=
    if (landCover =? "forest")%string then 1.2
    else if (landCover =? "urban")%string
            || (landCover =? "residential")%string then 0.8
    else 1.0 in
  baseSpreadRate * windModifier * temperatureModifier *
  slopeModifier * fuelModifier * humidityModifier *
  precipitationModifier * landCoverModifier.

(** The value assigned to [globalDirectionalFactor]. *)
Definition computeDirectionalFactor (cur : Current) : R :=
  exp (0.1 * (wind_kph cur / 3.6)).

(** *** The design document's model *)

Inductive FuelDensity : Type := dense | sparse.
Inductive LandCoverClass : Type := forest | urban | residential | other.

(** An environmental sample as the design document describes it. *)
Record Sample : Type := mkSample {
  temperature_C : R;
  windSpeed_ms : R;
  windDirection_deg : R;
  humidity_pct : R;
  precipitation_mm : R;
  slope_pct : R;
  fuelDensity : FuelDensity;
  landCover : LandCoverClass
}.

Definition fuelModifier (f : FuelDensity) : R :=
  match f with dense => 1.2 | sparse => 1.0 end.

Definition landCoverModifier (c : LandCoverClass) : R :=
  match c with forest => 1.2 | urban | residential => 0.8 | other => 1.0 end.

(** [spreadRate(sample)], term by term as the design document writes it. *)
Definition spreadRate (s : Sample) : R :=
  1.0 * exp (0.05 * windSpeed_ms s)
      * (1 + (temperature_C s - 20) * 0.05)
      * exp (slope_pct s / 100)
      * fuelModifier (fuelDensity s)
      * (1 - (humidity_pct s / 100) * 0.5)
      * (1 - Rmin 0.5 (precipitation_mm s * 0.2))
      * landCoverModifier (landCover s).

(** How the strings of the script are read as the classes of the design
    document. *)
Definition fuelDensityOf (fuelType : string) : FuelDensity :=
  if (fuelType =? "dense")%string then dense else sparse.

Definition landCoverClassOf (landCover : string) : LandCoverClass :=
  if (landCover =? "forest")%string then forest
  else if (landCover =? "urban")%string then urban
  else if (landCover =? "residential")%string then residential
  else other.

(** The sample the script works on when the lookups have resolved. *)
Definition sampleOf (v : Variant) (cur : Current) (slope : R)
    (landCover : string) : Sample :=
  {| temperature_C := temp_c cur;
     windSpeed_ms := wind_kph cur / 3.6;
     windDirection_deg := wind_degree cur;
     humidity_pct := humidity cur;
     precipitation_mm := match precip_mm cur with Some p => p | None => 0 end;
     slope_pct := slope;
     fuelDensity := fuelDensityOf (fuelType v landCover);
     landCover := landCoverClassOf landCover |}.

(** *** Two weather records used as examples *)

(** A sample at -10 degrees Celsius, everything else at rest. *)
Definition frostCurrent : Current :=
  {| temp_c := -10; wind_kph := 0; wind_degree := 0; humidity := 0;
     precip_mm := None |}.

(** A mild day: 20 degrees Celsius, no wind, no humidity, no rain. *)
Definition mildCurrent : Current :=
  {| temp_c := 20; wind_kph := 0; wind_degree := 0; humidity := 0;
     precip_mm := None |}.

End Environment.

(** ** Geodesy, scenarios, animator and reset *)

Module Simulation.

Import Boundary.

(** A Leaflet geographic coordinate. *)
Record LatLng : Type := mkLatLng { lat : R; lng : R }.

(** What is currently painted on the canvas. *)
Inductive Shape : Type :=
  | FireDot (centre : Point)
  | Polygon (vertices : list Point) (stroke fill : string).

(** A callback handed to [setTimeout] that has not run yet. *)
Inductive Timer : Type :=
  | AnimateTimer (timeIndex : nat) (totalRealTime : R) (delay : R)
  | EnvTimer (iteration : nat) (delay : R).

(** What a handler does besides changing the state: a message box, a
    request for environmental data, an exception that aborts the handler.
    [Presented i] marks the point of [animateFireSpread] where the frame of
    time index [i] is on the canvas and the slider is set to [i]. *)
Inductive Event : Type :=
  | Alert (message : string)
  | EnvRequest (position : LatLng)
  | Presented (timeIndex : nat)
  | Thrown.

(** The labels of the information panel. *)
Record Panel : Type := mkPanel {
  coords : string;
  address : string;
  gptReasoning : string;
  nearestFireStation : string;
  emergencyCall : bool
}.

(** The global variables of the script, the page elements it writes, the
    pending timers, and the map's current projection
    ([map.latLngToContainerPoint]). *)
Record State : Type := mkState {
  fireStartLatLng : option LatLng;
  currentCenter : option LatLng;
  simulationRunning : bool;
  effectiveSpreadRate : R;
  globalWindDegree : R;
  globalDirectionalFactor : R;
  fireResourceMarkers : list LatLng;
  canvas : list Shape;
  timeSlider : nat;
  timeValue : R;
  panel : Panel;
  timers : list Timer;
  latLngToContainerPoint : LatLng -> Point
}.

(** The state the script sets up when it is loaded. *)
Definition initialState (projection : LatLng -> Point) : State :=
  {| fireStartLatLng := None;
     currentCenter := None;
     simulationRunning := false;
     effectiveSpreadRate := 1.0;
     globalWindDegree := 0;
     globalDirectionalFactor := 1.0;
     fireResourceMarkers := [];
     canvas := [];
     timeSlider := 0;
     timeValue := 0;
     panel := mkPanel "" "" "" "" false;
     timers := [];
     latLngToContainerPoint := projection |}.

(** Scenario multipliers, applied to [effectiveSpreadRate]. *)
Definition bestMultiplier : R := 0.8.
Definition neutralMultiplier : R := 1.0.
Definition worstMultiplier : R := 1.2.

Definition totalSimTimeMin : nat := 30.
Definition simTimeStepMinutes : R := 1.0.
(** [totalSimTimeMin / simTimeStepMinutes], a whole number. *)
Definition simulationSteps : nat := 30.

(** Call-stack depth granted to the boundary sampler; it never needs
    more. *)
Definition samplerDepth : nat := 630.

(** *** Field updates *)

Definition withCanvas (c : list Shape) (s : State) : State :=
  mkState (fireStartLatLng s) (currentCenter s) (simulationRunning s)
    (effectiveSpreadRate s) (globalWindDegree s) (globalDirectionalFactor s)
    (fireResourceMarkers s) c (timeSlider s) (timeValue s) (panel s)
    (timers s) (latLngToContainerPoint s).

Definition withRunning (b : bool) (s : State) : State :=
  mkState (fireStartLatLng s) (currentCenter s) b
    (effectiveSpreadRate s) (globalWindDegree s) (globalDirectionalFactor s)
    (fireResourceMarkers s) (canvas s) (timeSlider s) (timeValue s) (panel s)
    (timers s) (latLngToContainerPoint s).

Definition withTimers (t : list Timer) (s : State) : State :=
  mkState (fireStartLatLng s) (currentCenter s) (simulationRunning s)
    (effectiveSpreadRate s) (globalWindDegree s) (globalDirectionalFactor s)
    (fireResourceMarkers s) (canvas s) (timeSlider s) (timeValue s) (panel s)
    t (latLngToContainerPoint s).

Definition withClock (i : nat) (minutes : R) (s : State) : State :=
  mkState (fireStartLatLng s) (currentCenter s) (simulationRunning s)
    (effectiveSpreadRate s) (globalWindDegree s) (globalDirectionalFactor s)
    (fireResourceMarkers s) (canvas s) i minutes (panel s)
    (timers s) (latLngToContainerPoint s).

Definition withWind (degree factor : R) (s : State) : State :=
  mkState (fireStartLatLng s) (currentCenter s) (simulationRunning s)
    (effectiveSpreadRate s) degree factor
    (fireResourceMarkers s) (canvas s) (timeSlider s) (timeValue s) (panel s)
    (timers s) (latLngToContainerPoint s).

Definition withSpreadRate (rate : R) (s : State) : State :=
  mkState (fireStartLatLng s) (currentCenter s) (simulationRunning s)
    rate (globalWindDegree s) (globalDirectionalFactor s)
    (fireResourceMarkers s) (canvas s) (timeSlider s) (timeValue s) (panel s)
    (timers s) (latLngToContainerPoint s).

(** [setTimeout(callback, delay)]. *)
Definition setTimeout (t : Timer) (s : State) : State :=
  withTimers (timers s ++ [t]) s.

(** *** Geodesy *)

(** [metersToPixels]. *)
Definition metersToPixels (v : Variant) (s : State) (meters : R) : R :=
  let center :=
    if prefersCurrentCenter v then
      match currentCenter s with
      | Some c => Some c
      | None => fireStartLatLng s
      end
    else fireStartLatLng s in
  match center with
  | None => meters
  | Some center =>
      let lat := lat center in
      let lng := lng center in
      let meterPerDegree := (40075000 * cos (lat * PI / 180)) / 360 in
      let offsetLng := lng + (meters / meterPerDegree) in
      let offsetLatLng := mkLatLng lat offsetLng in
      let p1 := latLngToContainerPoint s center in
      let p2 := latLngToContainerPoint s offsetLatLng in
      Rabs (x p2 - x p1)
  end.

(** *** Drawing *)

Definition drawMap (s : State) : State := withCanvas [] s.

Definition drawFire (s : State) : State :=
  match fireStartLatLng s with
  | None => s
  | Some ll =>
      withCanvas (canvas s ++ [FireDot (latLngToContainerPoint s ll)]) s
  end.

Definition fillColor (color : string) : string :=
  if (color =? "green")%string then "rgba(0,255,0,0.3)"
  else if (color =? "yellow")%string then "rgba(255,255,0,0.3)"
  else if (color =? "orange")%string then "rgba(255,165,0,0.3)"
  else "rgba(0,0,0,0.3)".

(** [drawScenario], local to [animateFireSpread]; [cp] is the screen
    position of the ignition point. *)
Definition drawScenario (cp : Point) (pointsArray : list Point)
    (color : string) (s : State) : State :=
  let path := map (fun pt => mkPoint (x cp + x pt) (y cp + y pt)) pointsArray in
  withCanvas (canvas s ++ [Polygon path color (fillColor color)]) s.

(** *** Scenario radii *)

(** [timeIndex * effectiveSpreadRate * multiplier], the radius in meters. *)
Definition scenarioRadius (timeIndex : nat) (rate multiplier : R) : R :=
  INR timeIndex * rate * multiplier.

(** The first argument of [getCustomFireFrontPoints] for a scenario. *)
Definition scenarioRadiusPx (v : Variant) (s : State) (timeIndex : nat)
    (multiplier : R) : R :=
  metersToPixels v s (scenarioRadius timeIndex (effectiveSpreadRate s) multiplier)
  * displayScaleFactor v.

(** *** Animator *)

(** [animateFireSpread].  A null ignition point makes the map library
    dereference null inside [latLngToContainerPoint], and a sampler that
    runs out of stack raises as well: both abort the callback where they
    happen ([Thrown]). *)
Definition animateFireSpread (v : Variant) (timeIndex : nat)
    (totalRealTime : R) (s : State) : State * list Event :=
  if (simulationSteps <=? timeIndex)%nat then (withRunning false s, [])
  else
    let s := drawMap s in
    match fireStartLatLng s with
    | None => (s, [Thrown])
    | Some ignition =>
        let cp := latLngToContainerPoint s ignition in
        let s := drawFire s in
        let bestRadiusPx := scenarioRadiusPx v s timeIndex bestMultiplier in
        let neutralRadiusPx := scenarioRadiusPx v s timeIndex neutralMultiplier in
        let worstRadiusPx := scenarioRadiusPx v s timeIndex worstMultiplier in
        let front radiusPx :=
          getCustomFireFrontPoints samplerDepth radiusPx
            (globalWindDegree s) (globalDirectionalFactor s) None in
        match front bestRadiusPx, front neutralRadiusPx, front worstRadiusPx with
        | Some bestPoints, Some neutralPoints, Some worstPoints =>
            let s := drawScenario cp bestPoints "green" s in
            let s := drawScenario cp neutralPoints "yellow" s in
            let s := drawScenario cp worstPoints "orange" s in
            let simulatedMinutes := INR timeIndex * simTimeStepMinutes in
            let s := withClock timeIndex simulatedMinutes s in
            let delay := totalRealTime / INR simulationSteps in
            (setTimeout (AnimateTimer (timeIndex + 1) totalRealTime delay) s,
             [Presented timeIndex])
        | _, _, _ => (s, [Thrown])
        end
    end.

(** [simulateFireSpread]; [simRunTimeSec] is the number parsed from the
    run-time input, if the element exists and holds a number. *)
Definition simulateFireSpread (v : Variant) (simRunTimeSec : option R)
    (s : State) : State * list Event :=
  match fireStartLatLng s with
  | None =>
      (s, [Alert "Please click on the map to set the starting point of the fire first."])
  | Some _ =>
      let simRunTimeSec :=
        match simRunTimeSec with
        | Some t => if Req_dec_T t 0 then 10 else t
        | None => 10
        end in
      let totalRealTime := simRunTimeSec * 1000 in
      animateFireSpread v 0 totalRealTime (withRunning true s)
  end.

(** *** Environmental refresh *)

(** [recursiveUpdateEnvData]; the request [updateEnvironmentalData] sends
    is an event, its answers come back through [weatherArrived] and
    [terrainArrived]. *)
Definition recursiveUpdateEnvData (iteration : nat) (s : State)
    : State * list Event :=
  if negb (simulationRunning s) then (s, [])
  else
    let requests :=
      match fireStartLatLng s with
      | Some ll => [EnvRequest ll]
      | None => []
      end in
    (setTimeout (EnvTimer (iteration + 1) 1000) s, requests).

(** First callback of [updateEnvironmentalData]: the weather record is in. *)
Definition weatherArrived (cur : option Environment.Current) (s : State)
    : State :=
  match cur with
  | Some cur =>
      withWind (Environment.wind_degree cur)
        (Environment.computeDirectionalFactor cur) s
  | None => s
  end.

(** Second callback: slope and land cover are in as well. *)
Definition terrainArrived (v : Variant) (cur : Environment.Current)
    (slope : R) (landCover : string) (s : State) : State :=
  withSpreadRate (Environment.computeSpreadRate v cur slope landCover) s.

(** *** Reset *)

(** [clearFire]. *)
Definition clearFire (v : Variant) (s : State) : State :=
  {| fireStartLatLng := None;
     currentCenter := currentCenter s;
     simulationRunning := simulationRunning s;
     effectiveSpreadRate := effectiveSpreadRate s;
     globalWindDegree := globalWindDegree s;
     globalDirectionalFactor := globalDirectionalFactor s;
     fireResourceMarkers := [];
     canvas := [];
     timeSlider := 0;
     timeValue := 0;
     panel := {| coords := "Coordinates: Not set";
                 address := "Address: Not set";
                 gptReasoning := reasoningCleared v;
                 nearestFireStation := "Nearest fire station: Not set";
                 emergencyCall := false |};
     timers := timers s;
     latLngToContainerPoint := latLngToContainerPoint s |}.

(** *** Event loop *)

(** The click handler of the start button. *)
Definition setFireButtonClick (v : Variant) (simRunTimeSec : option R)
    (s : State) : State * list Event :=
  match fireStartLatLng s with
  | Some _ =>
      let '(s1, e1) := simulateFireSpread v simRunTimeSec s in
      let '(s2, e2) := recursiveUpdateEnvData 1 s1 in
      (s2, e1 ++ e2)
  | None =>
      (s, [Alert "Please click on the map to set the starting point of the fire first."])
  end.

Definition runTimer (v : Variant) (t : Timer) (s : State)
    : State * list Event :=
  match t with
  | AnimateTimer timeIndex totalRealTime _ =>
      animateFireSpread v timeIndex totalRealTime s
  | EnvTimer iteration _ => recursiveUpdateEnvData iteration s
  end.

Fixpoint dropNth {A : Type} (n : nat) (l : list A) : list A :=
  match n, l with
  | _, [] => []
  | O, _ :: l' => l'
  | S n', a :: l' => a :: dropNth n' l'
  end.

(** The pending timer number [n] expires: it leaves the queue and its
    callback runs. *)
Definition fire (v : Variant) (n : nat) (s : State) : State * list Event :=
  match nth_error (timers s) n with
  | None => (s, [])
  | Some t => runTimer v t (withTimers (dropNth n (timers s)) s)
  end.

(** The pending timers expire one after the other, each time the oldest
    one, [n] times in all. *)
Fixpoint fireOldest (v : Variant) (n : nat) (s : State)
    : State * list Event :=
  match n with
  | O => (s, [])
  | S n' =>
      let '(s1, e1) := fire v 0 s in
      let '(s2, e2) := fireOldest v n' s1 in
      (s2, e1 ++ e2)
  end.

(** The pending timers expire in the order [schedule] gives: each entry is
    the position, in the queue at that moment, of the timer that expires. *)
Fixpoint run (v : Variant) (schedule : list nat) (s : State)
    : State * list Event :=
  match schedule with
  | [] => (s, [])
  | n :: rest =>
      let '(s1, e1) := fire v n s in
      let '(s2, e2) := run v rest s1 in
      (s2, e1 ++ e2)
  end.

(** The time indices of the animator ticks that are pending. *)
Fixpoint pendingTicks (queue : list Timer) : list nat :=
  match queue with
  | [] => []
  | AnimateTimer timeIndex _ _ :: rest => timeIndex :: pendingTicks rest
  | EnvTimer _ _ :: rest => pendingTicks rest
  end.

(** The time indices presented, in order. *)
Fixpoint presented (events : list Event) : list nat :=
  match events with
  | [] => []
  | Presented i :: rest => i :: presented rest
  | _ :: rest => presented rest
  end.

(** *** Vocabulary of the statements *)

(** The canvas after a tick: the ignition dot and the three polygons,
    best case first, each shifted to the screen position [cp]. *)
Definition frame (cp : Point) (bestPoints neutralPoints worstPoints : list Point)
    : list Shape :=
  let shift := map (fun pt => mkPoint (x cp + x pt) (y cp + y pt)) in
  [ FireDot cp;
    Polygon (shift bestPoints) "green" "rgba(0,255,0,0.3)";
    Polygon (shift neutralPoints) "yellow" "rgba(255,255,0,0.3)";
    Polygon (shift worstPoints) "orange" "rgba(255,165,0,0.3)" ].

(** The real duration, in milliseconds, that [simulateFireSpread] hands to
    the animator. *)
Definition totalRealTimeOf (simRunTimeSec : option R) : R :=
  match simRunTimeSec with
  | Some t => if Req_dec_T t 0 then 10 else t
  | None => 10
  end * 1000.

(** The delay between two ticks. *)
Definition tickDelay (totalRealTime : R) : R :=
  totalRealTime / INR simulationSteps.

(** A run is under way: the ignition point is set, the running flag is on
    and the tick for time index [k] is the one animator timer pending. *)
Definition underWay (ignition : LatLng) (k : nat) (s : State) : Prop :=
  fireStartLatLng s = Some ignition
  /\ simulationRunning s = true
  /\ pendingTicks (timers s) = [k]
  /\ (k <= simulationSteps)%nat.

(** The run is over: the flag is off and no animator timer is pending. *)
Definition complete (s : State) : Prop :=
  simulationRunning s = false /\ pendingTicks (timers s) = [].

(** *** A state used as example *)

(** A map that shows longitude and latitude as screen coordinates. *)
Definition plainProjection (ll : LatLng) : Point := mkPoint (lng ll) (lat ll).

(** The page after a click on the map at latitude 0, longitude 0. *)
Definition ignitedState : State :=
  {| fireStartLatLng := Some (mkLatLng 0 0);
     currentCenter := Some (mkLatLng 0 0);
     simulationRunning := false;
     effectiveSpreadRate := 1.0;
     globalWindDegree := 0;
     globalDirectionalFactor := 1.0;
     fireResourceMarkers := [];
     canvas := [FireDot (mkPoint 0 0)];
     timeSlider := 0;
     timeValue := 0;
     panel := mkPanel "" "" "" "" true;
     timers := [];
     latLngToContainerPoint := plainProjection |}.

End Simulation.

(** ** Great-circle distance *)

Module Geodesy.

(** [Math.atan2(y, x)] on real numbers. *)
Definition atan2 (y x : R) : R :=
  if Rlt_dec 0 x then atan (y / x)
  else if Rlt_dec x 0 then
    if Rle_dec 0 y then atan (y / x) + PI else atan (y / x) - PI
  else if Rlt_dec 0 y then PI / 2
  else if Rlt_dec y 0 then - (PI / 2)
  else 0.

(** The haversine term [a] of [computeDistance]. *)
Definition haversine (lat1 lng1 lat2 lng2 : R) : R :=
  let dLat := (lat2 - lat1) * PI / 180 in
  let dLon := (lng2 - lng1) * PI / 180 in
  sin (dLat / 2) * sin (dLat / 2) +
  cos (lat1 * PI / 180) * cos (lat2 * PI / 180) *
  sin (dLon / 2) * sin (dLon / 2).

(** [computeDistance]; the local constant [R] of the script is
    [earthRadius] here. *)
Definition computeDistance (lat1 lng1 lat2 lng2 : R) : R :=
  let earthRadius := 6371000 in
  let dLat := (lat2 - lat1) * PI / 180 in
  let dLon := (lng2 - lng1) * PI / 180 in
  let a := sin (dLat / 2) * sin (dLat / 2) +
           cos (lat1 * PI / 180) * cos (lat2 * PI / 180) *
           sin (dLon / 2) * sin (dLon / 2) in
  let c := 2 * atan2 (sqrt a) (sqrt (1 - a)) in
  earthRadius * c.

(** Cosine of the angle, seen from the centre of the sphere, between the
    points at the two coordinates (given in degrees). *)
Definition cosCentralAngle (lat1 lng1 lat2 lng2 : R) : R :=
  let phi1 := lat1 * PI / 180 in
  let phi2 := lat2 * PI / 180 in
  let dLambda := (lng2 - lng1) * PI / 180 in
  sin phi1 * sin phi2 + cos phi1 * cos phi2 * cos dLambda.

End Geodesy.

(** ** Answers of the terrain, land-cover and resource services *)

Module Services.

Import Simulation.

(** Whether a number that may be missing counts as true in a condition:
    it is there and it is not 0. *)
Definition truthyNumber (n : option R) : bool :=
  match n with
  | Some r => if Req_dec_T r 0 then false else true
  | None => false
  end.

(** Whether a string that may be missing counts as true in a condition:
    it is there and it is not empty. *)
Definition truthyString (t : option string) : bool :=
  match t with
  | Some EmptyString => false
  | Some _ => true
  | None => false
  end.

(** The callback of [getSlope], once both elevations are known. *)
Definition getSlope (lat lng : R) (elev1 elev2 : R) : R :=
  let deltaLng := 0.001 in
  let metersPerDegree := (40075000 * cos (lat * PI / 180)) / 360 in
  let horizontalMeters := deltaLng * metersPerDegree in
  let slope := ((elev2 - elev1) / horizontalMeters) * 100 in
  Rabs slope.

(** An element of an Overpass answer, as far as [getLandCover] reads it:
    [tags] may be missing, and so may [tags.landuse]. *)
Record LandElement : Type := mkLandElement {
  landTags : option (option string)
}.

(** The callback of [getLandCover]; [elements] is [data.elements], which
    may be missing. *)
Definition getLandCover (elements : option (list LandElement)) : string :=
  match elements with
  | Some (first :: _) =>
      match landTags first with
      | Some landuse =>
          if truthyString landuse
          then match landuse with Some l => l | None => "unknown" end
          else "unknown"
      | None => "unknown"
      end
  | _ => "unknown"
  end.

(** The tags [displayNearbyFireResources] reads. *)
Record ResourceTags : Type := mkResourceTags {
  amenity : option string;
  emergency : option string;
  name : option string
}.

(** An element of the answer to the resource query. *)
Record Element : Type := mkElement {
  elementLat : option R;
  elementLon : option R;
  tags : option ResourceTags
}.

Inductive Icon : Type := fireStationIcon | hydrantIcon.

(** The variables the [forEach] of [displayNearbyFireResources] works on:
    the markers added so far, [nearestStation] and [nearestDistance]
    ([None] is [Infinity]). *)
Record Scan : Type := mkScan {
  markers : list (Icon * LatLng);
  nearestStation : option Element;
  nearestDistance : option R
}.

Definition hasAmenity (e : Element) (value : string) : bool :=
  match tags e with
  | Some t =>
      match amenity t with
      | Some a => (a =? value)%string
      | None => false
      end
  | None => false
  end.

Definition hasEmergency (e : Element) (value : string) : bool :=
  match tags e with
  | Some t =>
      match emergency t with
      | Some a => (a =? value)%string
      | None => false
      end
  | None => false
  end.

Definition numberOr0 (n : option R) : R :=
  match n with Some r => r | None => 0 end.

(** [distance < nearestDistance]. *)
Definition closer (distance : R) (nearestDistance : option R) : bool :=
  match nearestDistance with
  | None => true
  | Some d => if Rlt_dec distance d then true else false
  end.

(** One turn of the [forEach]; [None] when it throws, which it does when a
    fire station is met while the ignition point is null. *)
Definition scanElement (fireStartLatLng : option LatLng) (element : Element)
    (sc : Scan) : option Scan :=
  if negb (truthyNumber (elementLat element))
     || negb (truthyNumber (elementLon element))
  then Some sc
  else
    let position :=
      mkLatLng (numberOr0 (elementLat element))
               (numberOr0 (elementLon element)) in
    if hasAmenity element "fire_station" then
      match fireStartLatLng with
      | None => None
      | Some start =>
          let distance :=
            Geodesy.computeDistance (lat start) (lng start)
              (numberOr0 (elementLat element))
              (numberOr0 (elementLon element)) in
          let sc :=
            if closer distance (nearestDistance sc)
            then mkScan (markers sc) (Some element) (Some distance)
            else sc in
          Some (mkScan (markers sc ++ [(fireStationIcon, position)])
                  (nearestStation sc) (nearestDistance sc))
      end
    else if hasEmergency element "fire_hydrant" then
      Some (mkScan (markers sc ++ [(hydrantIcon, position)])
              (nearestStation sc) (nearestDistance sc))
    else Some sc.

(** The [forEach]: the state of its variables when it stops, and whether it
    ran to the end. *)
Fixpoint scanElements (fireStartLatLng : option LatLng)
    (elements : list Element) (sc : Scan) : Scan * bool :=
  match elements with
  | [] => (sc, true)
  | element :: rest =>
      match scanElement fireStartLatLng element sc with
      | Some sc' => scanElements fireStartLatLng rest sc'
      | None => (sc, false)
      end
  end.

(** [nearestStation.tags.name || "Unnamed Station"]. *)
Definition stationName (station : Element) : string :=
  match tags station with
  | Some t =>
      if truthyString (name t)
      then match name t with Some n => n | None => "Unnamed Station" end
      else "Unnamed Station"
  | None => "Unnamed Station"
  end.

(** *** Vocabulary of the statements *)

(** A fire station that has coordinates the script accepts. *)
Definition locatedStation (e : Element) : bool :=
  truthyNumber (elementLat e) && truthyNumber (elementLon e)
  && hasAmenity e "fire_station".

(** A hydrant (and not a fire station) that has coordinates the script
    accepts. *)
Definition locatedHydrant (e : Element) : bool :=
  truthyNumber (elementLat e) && truthyNumber (elementLon e)
  && negb (hasAmenity e "fire_station")
  && hasEmergency e "fire_hydrant".

Definition positionOf (e : Element) : LatLng :=
  mkLatLng (numberOr0 (elementLat e)) (numberOr0 (elementLon e)).

(** Distance from the ignition point to an element. *)
Definition distanceTo (start : LatLng) (e : Element) : R :=
  Geodesy.computeDistance (lat start) (lng start)
    (numberOr0 (elementLat e)) (numberOr0 (elementLon e)).

(** The marker an element gets, if any. *)
Definition markerOf (e : Element) : list (Icon * LatLng) :=
  if locatedStation e then [(fireStationIcon, positionOf e)]
  else if locatedHydrant e then [(hydrantIcon, positionOf e)]
  else [].

(** What the loop knows about the elements [seen] so far. *)
Definition nearestAmong (start : LatLng) (seen : list Element) (sc : Scan)
    : Prop :=
  match nearestStation sc, nearestDistance sc with
  | Some st, Some d =>
      In st seen /\ locatedStation st = true /\ d = distanceTo start st
      /\ forall e, In e seen -> locatedStation e = true ->
                   d <= distanceTo start e
  | None, None =>
      forall e, In e seen -> locatedStation e = false
  | _, _ => False
  end.

End Services.

(** ** The handlers of the page *)

Module Page.

Import Boundary Simulation Services.

(** A request a handler sends out; the answer comes back as an action of
    its own. *)
Inductive Request : Type :=
  | AddressLookup (position : LatLng)
  | WeatherLookup (position : LatLng)
  | ResourceLookup (position : LatLng).

(** What the reverse geocoder answers: a formatted address, no result, or
    a failure of the request. *)
Inductive AddressAnswer : Type :=
  | Formatted (text : string)
  | NotFound
  | Failed.

(** *** Field updates *)

Definition withIgnition (ignition center : option LatLng) (s : State)
    : State :=
  mkState ignition center (simulationRunning s)
    (effectiveSpreadRate s) (globalWindDegree s) (globalDirectionalFactor s)
    (fireResourceMarkers s) (canvas s) (timeSlider s) (timeValue s) (panel s)
    (timers s) (latLngToContainerPoint s).

Definition withMarkers (m : list LatLng) (s : State) : State :=
  mkState (fireStartLatLng s) (currentCenter s) (simulationRunning s)
    (effectiveSpreadRate s) (globalWindDegree s) (globalDirectionalFactor s)
    m (canvas s) (timeSlider s) (timeValue s) (panel s)
    (timers s) (latLngToContainerPoint s).

Definition withPanel (p : Panel) (s : State) : State :=
  mkState (fireStartLatLng s) (currentCenter s) (simulationRunning s)
    (effectiveSpreadRate s) (globalWindDegree s) (globalDirectionalFactor s)
    (fireResourceMarkers s) (canvas s) (timeSlider s) (timeValue s) p
    (timers s) (latLngToContainerPoint s).

Definition withProjection (projection : LatLng -> Point) (s : State)
    : State :=
  mkState (fireStartLatLng s) (currentCenter s) (simulationRunning s)
    (effectiveSpreadRate s) (globalWindDegree s) (globalDirectionalFactor s)
    (fireResourceMarkers s) (canvas s) (timeSlider s) (timeValue s) (panel s)
    (timers s) projection.

Definition setCoords (text : string) (p : Panel) : Panel :=
  mkPanel text (address p) (gptReasoning p) (nearestFireStation p)
    (emergencyCall p).

Definition setAddress (text : string) (p : Panel) : Panel :=
  mkPanel (coords p) text (gptReasoning p) (nearestFireStation p)
    (emergencyCall p).

Definition setReasoning (text : string) (p : Panel) : Panel :=
  mkPanel (coords p) (address p) text (nearestFireStation p)
    (emergencyCall p).

Definition setNearest (text : string) (p : Panel) : Panel :=
  mkPanel (coords p) (address p) (gptReasoning p) text (emergencyCall p).

Definition setEmergencyCall (shown : bool) (p : Panel) : Panel :=
  mkPanel (coords p) (address p) (gptReasoning p) (nearestFireStation p)
    shown.

Section Handlers.

(** [Number.prototype.toFixed(4)], and the text [updateInfoBox] writes to
    the reasoning label: the variant writes one, [script.js] none. *)
Variables (toFixed4 : R -> string) (reasoningOnClick : option string).
Variable v : Variant.

(** [updateInfoBox]. *)
Definition updateInfoBox (latlng : LatLng) (s : State)
    : State * list Request :=
  let text :=
    ("Coordinates: " ++ toFixed4 (lat latlng) ++ ", "
       ++ toFixed4 (lng latlng))%string in
  let s := withPanel (setCoords text (panel s)) s in
  let s :=
    match reasoningOnClick with
    | Some reasoning => withPanel (setReasoning reasoning (panel s)) s
    | None => s
    end in
  (s, [AddressLookup latlng; WeatherLookup latlng]).

(** [displayNearbyFireResources], up to the request it sends. *)
Definition displayNearbyFireResources (latlng : LatLng) (s : State)
    : State * list Request :=
  (withMarkers [] s, [ResourceLookup latlng]).

(** The click handler of the map. *)
Definition mapClick (latlng : LatLng) (s : State) : State * list Request :=
  match fireStartLatLng s with
  | Some _ => (s, [])
  | None =>
      let s := withIgnition (Some latlng) (Some latlng) s in
      let s := drawMap s in
      let s := drawFire s in
      let '(s, r1) := updateInfoBox latlng s in
      let '(s, r2) := displayNearbyFireResources latlng s in
      (withPanel (setEmergencyCall true (panel s)) s, r1 ++ r2)
  end.

(** The callbacks of the address request. *)
Definition addressArrived (answer : AddressAnswer) (s : State) : State :=
  let text :=
    match answer with
    | Formatted formatted => ("Address: " ++ formatted)%string
    | NotFound => "Address: Not found"%string
    | Failed => "Address: Error fetching"%string
    end in
  withPanel (setAddress text (panel s)) s.

(** The callbacks of the resource request; [elements] is [data.elements]. *)
Definition resourcesArrived (elements : option (list Element)) (s : State)
    : State :=
  match elements with
  | Some (first :: rest) =>
      let '(sc, finished) :=
        scanElements (fireStartLatLng s) (first :: rest)
          (mkScan [] None None) in
      let s :=
        withMarkers (fireResourceMarkers s ++ map snd (markers sc)) s in
      if finished then
        match nearestStation sc with
        | Some station =>
            withPanel
              (setNearest
                 ("Nearest fire station: " ++ stationName station)%string
                 (panel s)) s
        | None => s
        end
      else s
  | _ => s
  end.

(** [redrawAll], the handler of the map's move and zoom events. *)
Definition redrawAll (s : State) : State := drawFire (drawMap s).

(** [clearPredictions]. *)
Definition clearPredictions (s : State) : State :=
  let s := drawMap s in
  let s := match fireStartLatLng s with Some _ => drawFire s | None => s end in
  withClock 0 0 s.

(** The input handler of the time slider; [value] is the position the user
    moved it to. *)
Definition timeSliderInput (value : nat) (s : State) : State :=
  let timeIndex := value in
  let s := drawMap s in
  let s := drawFire s in
  let simulatedMinutes := INR timeIndex * simTimeStepMinutes in
  withClock value simulatedMinutes s.

(** *** Everything that can happen to the page *)

Inductive Action : Type :=
  | MapClick (latlng : LatLng)
  | SetFireButton (simRunTimeSec : option R)
  | ClearPredictionsButton
  | ClearFireButton
  | SliderInput (value : nat)
  | MapMoved (projection : LatLng -> Point)
  | TimerExpires (n : nat)
  | WeatherArrives (cur : option Environment.Current)
  | TerrainArrives (cur : Environment.Current) (slope : R)
      (landCover : string)
  | AddressArrives (answer : AddressAnswer)
  | ResourcesArrive (elements : option (list Element)).

Definition step (a : Action) (s : State) : State :=
  match a with
  | MapClick latlng => fst (mapClick latlng s)
  | SetFireButton simRunTimeSec =>
      fst (setFireButtonClick v simRunTimeSec s)
  | ClearPredictionsButton => clearPredictions s
  | ClearFireButton => clearFire v s
  | SliderInput value => timeSliderInput value s
  | MapMoved projection => redrawAll (withProjection projection s)
  | TimerExpires n => fst (fire v n s)
  | WeatherArrives cur => weatherArrived cur s
  | TerrainArrives cur slope landCover =>
      terrainArrived v cur slope landCover s
  | AddressArrives answer => addressArrived answer s
  | ResourcesArrive elements => resourcesArrived elements s
  end.

(** The states the page can be in, from the moment the script is loaded. *)
Inductive reachable (projection : LatLng -> Point) : State -> Prop :=
  | reachable_loaded : reachable projection (initialState projection)
  | reachable_step a s :
      reachable projection s -> reachable projection (step a s).

End Handlers.

(** *** Vocabulary of the statements *)

Definition isPolygon (shape : Shape) : bool :=
  match shape with
  | Polygon _ _ _ => true
  | FireDot _ => false
  end.

End Page.

(** * Properties *)

(** ** Bounds on [Math.PI] *)

Lemma PI_lower : 3.1415 < PI.
Proof.
  pose proof (PI_2_3_7_ineq 1) as [Hlo _].
  unfold sum_f_R0, tg_alt, PI_2_3_7_tg, Ratan_seq in Hlo.
  simpl in Hlo. lra.
Qed.

Lemma PI_upper : PI < 3.1421.
Proof.
  pose proof (PI_2_3_7_ineq 1) as [_ Hhi].
  unfold sum_f_R0, tg_alt, PI_2_3_7_tg, Ratan_seq in Hhi.
  simpl in Hhi. lra.
Qed.

(** Decimal literals are quotients of integers; [real_field] lets [field]
    see them as such. *)
Ltac real_field :=
  unfold Q2R; cbn [QArith_base.Qnum QArith_base.Qden]; field.

Lemma INR_literal (n : nat) : INR n = IZR (Z.of_nat n).
Proof. apply INR_IZR_INZ. Qed.

(** ** The boundary sampler *)

Import Boundary.

(** *** The acceptance block *)

Lemma pushIfSpaced_nil newPoint d : pushIfSpaced [] newPoint d = [newPoint].
Proof. reflexivity. Qed.

Lemma nth_last_snoc (l : list Point) (a d : Point) :
  nth (length (l ++ [a]) - 1) (l ++ [a]) d = a.
Proof.
  rewrite length_app; simpl.
  replace (length l + 1 - 1)%nat with (length l) by lia.
  rewrite app_nth2 by lia. now rewrite Nat.sub_diag.
Qed.

Lemma pushIfSpaced_snoc l a p d :
  pushIfSpaced (l ++ [a]) p d =
  if Rge_dec (distance p a) d then (l ++ [a]) ++ [p] else l ++ [a].
Proof.
  unfold pushIfSpaced.
  assert (H : (length (l ++ [a]) =? 0)%nat = false).
  { apply Nat.eqb_neq. rewrite length_app; simpl; lia. }
  rewrite H. cbv zeta. rewrite nth_last_snoc. reflexivity.
Qed.

Lemma pushIfSpaced_spec points p d :
  pushIfSpaced points p d = specAccept d points p.
Proof.
  destruct (rev points) as [|a r] eqn:E.
  - assert (points = []) as -> by (apply (f_equal (@rev Point)) in E;
      now rewrite rev_involutive in E).
    reflexivity.
  - assert (points = rev r ++ [a]) as ->
      by (apply (f_equal (@rev Point)) in E;
          now rewrite rev_involutive in E).
    rewrite pushIfSpaced_snoc. unfold specAccept.
    rewrite rev_app_distr; simpl.
    destruct (Rge_dec (distance p a) d), (Rle_dec d (distance p a));
      try reflexivity; exfalso; lra.
Qed.

Lemma pushIfSpaced_cases points p d :
  pushIfSpaced points p d = points \/
  pushIfSpaced points p d = points ++ [p].
Proof.
  unfold pushIfSpaced. destruct (length points =? 0)%nat; [now right|].
  cbv zeta. destruct (Rge_dec _ _); [now right | now left].
Qed.

Lemma pushIfSpaced_length points p d :
  (length (pushIfSpaced points p d) <= S (length points))%nat.
Proof.
  destruct (pushIfSpaced_cases points p d) as [-> | ->].
  - lia.
  - rewrite length_app; simpl; lia.
Qed.

Lemma pushIfSpaced_nonempty points p d : pushIfSpaced points p d <> [].
Proof.
  destruct points as [|a l].
  - discriminate.
  - destruct (pushIfSpaced_cases (a :: l) p d) as [-> | ->]; discriminate.
Qed.


Lemma spaced_nil d : spaced d [].
Proof. intros i p q H. destruct i; discriminate. Qed.

Lemma spaced_single d p : spaced d [p].
Proof. intros i a b _ H. destruct i as [|[|i]]; discriminate. Qed.

Lemma spaced_snoc d l p :
  spaced d l ->
  (forall a, nth_error l (length l - 1) = Some a -> d <= distance p a) ->
  spaced d (l ++ [p]).
Proof.
  intros Hl Hlast i a b Ha Hb.
  destruct (Nat.lt_trichotomy (S i) (length l)) as [Hlt | [Heq | Hgt]].
  - rewrite nth_error_app1 in Ha, Hb by lia. eauto.
  - rewrite nth_error_app1 in Ha by lia.
    rewrite nth_error_app2 in Hb by lia.
    replace (S i - length l)%nat with O in Hb by lia.
    injection Hb as <-. apply Hlast.
    now replace (length l - 1)%nat with i by lia.
  - rewrite nth_error_app2 in Hb by lia.
    destruct (S i - length l)%nat as [|[|j]] eqn:E; try discriminate; lia.
Qed.

Lemma pushIfSpaced_spaced d points p :
  spaced d points -> spaced d (pushIfSpaced points p d).
Proof.
  intros Hs. unfold pushIfSpaced.
  destruct (length points =? 0)%nat eqn:E.
  - apply Nat.eqb_eq in E. apply length_zero_iff_nil in E. subst points.
    apply spaced_single.
  - cbv zeta. destruct (Rge_dec _ _) as [Hge | _]; [|exact Hs].
    apply spaced_snoc; [exact Hs|].
    intros a Ha. rewrite (nth_error_nth _ _ p Ha) in Hge.
    unfold distance. lra.
Qed.

(** *** The recursion as a left fold over the visited angles *)

Section Fold.

Variables (baseRadiusPx windAngleRad k stepIncrement minDistance : R).

Local Abbreviation pushAt :=
  (Boundary.pushAt baseRadiusPx windAngleRad k minDistance).

Lemma compute_fold n : forall fuel theta points,
  (n < fuel)%nat ->
  (forall a, In a (visited n theta stepIncrement) -> a <= 2 * PI) ->
  theta + INR n * stepIncrement > 2 * PI ->
  computeBoundaryPointsRecursively fuel theta baseRadiusPx windAngleRad k
    points stepIncrement minDistance
  = Some (fold_left pushAt (visited n theta stepIncrement) points).
Proof.
  induction n as [|n IH]; intros fuel theta points Hfuel Hin Hout.
  - destruct fuel as [|fuel]; [lia|]. simpl in *.
    destruct (Rgt_dec theta (2 * PI)) as [_ | Hn]; [reflexivity | lra].
  - destruct fuel as [|fuel]; [lia|].
    cbn [computeBoundaryPointsRecursively visited fold_left].
    destruct (Rgt_dec theta (2 * PI)) as [Hgt | _].
    + specialize (Hin theta (or_introl eq_refl)). lra.
    + cbv zeta. rewrite (IH fuel); [reflexivity | lia | |].
      * intros a Ha. apply Hin. now right.
      * rewrite S_INR in Hout. lra.
Qed.

Lemma compute_starved n : forall theta points,
  (forall a, In a (visited n theta stepIncrement) -> a <= 2 * PI) ->
  computeBoundaryPointsRecursively n theta baseRadiusPx windAngleRad k
    points stepIncrement minDistance = None.
Proof.
  induction n as [|n IH]; intros theta points Hin; [reflexivity|].
  cbn [computeBoundaryPointsRecursively].
  destruct (Rgt_dec theta (2 * PI)) as [Hgt | _].
  - specialize (Hin theta (or_introl eq_refl)). lra.
  - cbv zeta. apply IH. intros a Ha. apply Hin. now right.
Qed.

Lemma fold_pushAt_length angles : forall points,
  (length (fold_left pushAt angles points)
   <= length points + length angles)%nat.
Proof.
  induction angles as [|a angles IH]; intros points; simpl; [lia|].
  specialize (IH (pushAt points a)).
  pose proof (pushIfSpaced_length points
                (polarPoint baseRadiusPx windAngleRad k a) minDistance).
  unfold pushAt in *. lia.
Qed.

Lemma fold_pushAt_nonempty angles : forall points,
  points <> [] -> fold_left pushAt angles points <> [].
Proof.
  induction angles as [|a angles IH]; intros points Hne; simpl; [exact Hne|].
  apply IH. apply pushIfSpaced_nonempty.
Qed.

Lemma fold_pushAt_spaced angles : forall points,
  spaced minDistance points ->
  spaced minDistance (fold_left pushAt angles points).
Proof.
  induction angles as [|a angles IH]; intros points Hs; simpl; [exact Hs|].
  apply IH. now apply pushIfSpaced_spaced.
Qed.

Lemma fold_pushAt_Forall (P : Point -> Prop) angles : forall points,
  (forall a, In a angles -> P (polarPoint baseRadiusPx windAngleRad k a)) ->
  Forall P points -> Forall P (fold_left pushAt angles points).
Proof.
  induction angles as [|a angles IH]; intros points HP Hall; simpl;
    [exact Hall|].
  apply IH; [intros b Hb; apply HP; now right|].
  unfold pushAt.
  destruct (pushIfSpaced_cases points
              (polarPoint baseRadiusPx windAngleRad k a) minDistance)
    as [-> | ->]; [exact Hall|].
  apply Forall_app; split; [exact Hall|].
  constructor; [apply HP; now left | constructor].
Qed.

Lemma fold_pushAt_spec angles : forall points,
  fold_left pushAt angles points
  = fold_left (specAccept minDistance)
      (map (polarPoint baseRadiusPx windAngleRad k) angles) points.
Proof.
  induction angles as [|a angles IH]; intros points; simpl; [reflexivity|].
  rewrite IH. unfold pushAt. now rewrite pushIfSpaced_spec.
Qed.

End Fold.

(** *** The angles visited from 0 in steps of 0.01 *)

Lemma visited_affine n : forall theta step,
  visited n theta step = map (fun i => theta + INR i * step) (seq 0 n).
Proof.
  induction n as [|n IH]; intros theta step; [reflexivity|].
  cbn [visited seq map]. f_equal; [simpl; ring|].
  rewrite IH, <- seq_shift, map_map.
  apply map_ext. intros i. rewrite S_INR. ring.
Qed.

Lemma visited_sampleAngles n : visited n 0 0.01 = sampleAngles n.
Proof.
  rewrite visited_affine. unfold sampleAngles.
  apply map_ext. intros i. ring.
Qed.

Lemma sampleAngles_in n a :
  In a (sampleAngles n) <-> exists i, (i < n)%nat /\ a = INR i * 0.01.
Proof.
  unfold sampleAngles. rewrite in_map_iff. split.
  - intros [i [<- Hi]]. apply in_seq in Hi. exists i. split; [lia | reflexivity].
  - intros [i [Hi ->]]. exists i. split; [reflexivity | apply in_seq; lia].
Qed.

(** Angle number [i] is at most [2 * PI] exactly when [i < 629]. *)
Lemma sample_in_turn (i : nat) : INR i * 0.01 <= 2 * PI <-> (i < 629)%nat.
Proof.
  pose proof PI_lower. pose proof PI_upper. split.
  - intros Hle. destruct (Nat.lt_ge_cases i 629) as [Hlt | Hge]; [exact Hlt|].
    apply le_INR in Hge. rewrite (INR_literal 629) in Hge.
    simpl in Hge. lra.
  - intros Hlt. assert (Hle : (i <= 628)%nat) by lia.
    apply le_INR in Hle. rewrite (INR_literal 628) in Hle.
    simpl in Hle. lra.
Qed.

(** What [getCustomFireFrontPoints] returns, for every stack of at least
    630 frames. *)
Lemma getCustomFireFrontPoints_fold fuel b wdeg f md :
  (630 <= fuel)%nat ->
  getCustomFireFrontPoints fuel b wdeg f md
  = Some (fold_left
            (pushAt b (wdeg * PI / 180) ((f - 1) * 1.5) (minSpacingOf md))
            (sampleAngles 629) []).
Proof.
  intros Hfuel. unfold getCustomFireFrontPoints. cbv zeta.
  fold (minSpacingOf md).
  rewrite (compute_fold _ _ _ _ _ 629); [now rewrite visited_sampleAngles | lia | |].
  - intros a Ha. rewrite visited_sampleAngles in Ha.
    apply sampleAngles_in in Ha as [i [Hi ->]]. now apply sample_in_turn.
  - pose proof PI_upper. rewrite (INR_literal 629). simpl. lra.
Qed.

Lemma getCustomFireFrontPoints_starved b wdeg f md :
  getCustomFireFrontPoints 629 b wdeg f md = None.
Proof.
  unfold getCustomFireFrontPoints. cbv zeta.
  apply compute_starved. intros a Ha. rewrite visited_sampleAngles in Ha.
  apply sampleAngles_in in Ha as [i [Hi ->]]. now apply sample_in_turn.
Qed.

Lemma sampleAngles_length n : length (sampleAngles n) = n.
Proof. unfold sampleAngles. now rewrite length_map, length_seq. Qed.

Lemma Some_inj {A : Type} (a b : A) : Some a = Some b -> a = b.
Proof. intros H. now injection H. Qed.

(** *** The returned boundary *)

Lemma polarPoint_zero w k theta : polarPoint 0 w k theta = mkPoint 0 0.
Proof. unfold polarPoint. cbv zeta. f_equal; ring. Qed.

Lemma pushAt_first b w k d theta : pushAt b w k d [] theta = [polarPoint b w k theta].
Proof. reflexivity. Qed.

Lemma sampleAngles_S n :
  sampleAngles (S n) = 0 :: map (fun i => INR i * 0.01) (seq 1 n).
Proof.
  unfold sampleAngles. cbn [seq map]. f_equal. simpl. ring.
Qed.

Lemma fold_pushAt_head b w k d angles : forall p0 l,
  exists rest, fold_left (pushAt b w k d) angles (p0 :: l) = p0 :: rest.
Proof.
  induction angles as [|a angles IH]; intros p0 l; cbn [fold_left];
    [now exists l|].
  unfold pushAt at 2.
  destruct (pushIfSpaced_cases (p0 :: l) (polarPoint b w k a) d)
    as [-> | ->]; [apply IH|].
  rewrite <- app_comm_cons. apply IH.
Qed.

Lemma fold_pushAt_first b w k d a angles :
  exists rest,
    fold_left (pushAt b w k d) (a :: angles) [] = polarPoint b w k a :: rest.
Proof.
  cbn [fold_left]. rewrite pushAt_first. apply fold_pushAt_head.
Qed.

(** The sampler's first point is always kept. *)
Lemma boundary_head fuel b wdeg f md :
  (630 <= fuel)%nat ->
  exists rest,
    getCustomFireFrontPoints fuel b wdeg f md
    = Some (polarPoint b (wdeg * PI / 180) ((f - 1) * 1.5) 0 :: rest).
Proof.
  intros Hfuel. rewrite getCustomFireFrontPoints_fold by exact Hfuel.
  rewrite (sampleAngles_S 628).
  destruct (fold_pushAt_first b (wdeg * PI / 180) ((f - 1) * 1.5)
              (minSpacingOf md) 0 (map (fun i => INR i * 0.01) (seq 1 628)))
    as [rest Hrest].
  exists rest. f_equal. exact Hrest.
Qed.

(** C1: the generator samples the angle from 0 to 2*pi in steps of 0.01 (the
    angles [i * 0.01] for [i < 629], which are exactly the multiples of 0.01
    up to 2*pi); every candidate is
    [(r * cos theta, r * sin theta)] with
    [r = baseRadius * (1 + k * cos (theta - windDirectionRad))],
    [k = (directionalFactor - 1) * 1.5] and the wind direction converted from
    degrees to radians; and the result is a function of the four inputs
    alone: the design document's generator run on these candidates, whatever
    the stack depth from 630 frames on. *)
Theorem C1_polar_sampling (fuel : nat)
    (baseRadius windDirectionDeg directionalFactor : R)
    (minSpacing : option R) :
  (630 <= fuel)%nat ->
  getCustomFireFrontPoints fuel baseRadius windDirectionDeg directionalFactor
    minSpacing
  = Some (specBoundary 629 baseRadius windDirectionDeg directionalFactor
            (minSpacingOf minSpacing))
  /\ (forall i : nat,
        In (INR i * 0.01) (sampleAngles 629) <-> INR i * 0.01 <= 2 * PI)
  /\ (forall points,
        getCustomFireFrontPoints fuel baseRadius windDirectionDeg
          directionalFactor minSpacing = Some points ->
        Forall (fun p => exists i : nat,
                  let theta := INR i * 0.01 in
                  let windDirectionRad := windDirectionDeg * PI / 180 in
                  let k := (directionalFactor - 1) * 1.5 in
                  let r := baseRadius * (1 + k * cos (theta - windDirectionRad)) in
                  theta <= 2 * PI /\ p = mkPoint (r * cos theta) (r * sin theta))
               points).
Proof.
  intros Hfuel. rewrite getCustomFireFrontPoints_fold by exact Hfuel.
  split; [|split].
  - unfold specBoundary. cbv zeta. rewrite fold_pushAt_spec. reflexivity.
  - intros i. split.
    + intros Hin. apply sampleAngles_in in Hin as [j [Hj Heq]].
      rewrite Heq. apply sample_in_turn. exact Hj.
    + intros Hle. apply sampleAngles_in. exists i. split; [|reflexivity].
      apply sample_in_turn. exact Hle.
  - intros points Hsome. apply Some_inj in Hsome. subst points.
    apply fold_pushAt_Forall; [|constructor].
    intros a Ha. apply sampleAngles_in in Ha as [i [Hi ->]].
    exists i. cbv zeta. split; [apply sample_in_turn; exact Hi | reflexivity].
Qed.

Lemma C1_polar_sampling_witness :
  (630 <= 630)%nat /\
  getCustomFireFrontPoints 630 10 90 2 None
  = Some (specBoundary 629 10 90 2 (minSpacingOf None)).
Proof.
  split; [apply le_n|].
  exact (proj1 (C1_polar_sampling 630 10 90 2 None (le_n 630))).
Defined.

(** C2: in every boundary the generator returns, two consecutive points
    are at least [minSpacing] (3 when the argument is left out) apart;
    nothing is said about the closing segment from the last point back to
    the first.  A candidate is appended only when it is the first point or
    lies at least [minSpacing] away from the last accepted point. *)
Theorem C2_minimum_spacing (fuel : nat)
    (baseRadius windDirectionDeg directionalFactor : R)
    (minSpacing : option R) :
  (630 <= fuel)%nat ->
  (exists points,
     getCustomFireFrontPoints fuel baseRadius windDirectionDeg
       directionalFactor minSpacing = Some points
     /\ forall i p q,
          nth_error points i = Some p ->
          nth_error points (S i) = Some q ->
          minSpacingOf minSpacing <= distance q p)
  /\ (forall accepted candidate,
        pushIfSpaced accepted candidate (minSpacingOf minSpacing)
        = accepted ++ [candidate] ->
        accepted = [] \/
        exists previous,
          nth_error accepted (length accepted - 1) = Some previous
          /\ minSpacingOf minSpacing <= distance candidate previous).
Proof.
  intros Hfuel. split.
  - eexists. split; [apply getCustomFireFrontPoints_fold; exact Hfuel|].
    apply fold_pushAt_spaced, spaced_nil.
  - intros accepted candidate Hpush.
    destruct accepted as [|a l]; [now left|]. right.
    destruct (nth_error (a :: l) (length (a :: l) - 1)) as [previous|] eqn:E.
    + exists previous. split; [reflexivity|].
      unfold pushIfSpaced in Hpush. cbn [length Nat.eqb] in Hpush.
      cbv zeta in Hpush.
      destruct (Rge_dec _ _) as [Hge | _].
      * cbn [length] in E. rewrite (nth_error_nth _ _ candidate E) in Hge.
        unfold distance. lra.
      * exfalso. apply (f_equal (@length Point)) in Hpush.
        rewrite length_app in Hpush. simpl in Hpush. lia.
    + apply nth_error_None in E. simpl in E. lia.
Qed.

Lemma C2_minimum_spacing_witness :
  (630 <= 630)%nat /\
  exists points,
    getCustomFireFrontPoints 630 10 90 2 (Some 5) = Some points
    /\ forall i p q,
         nth_error points i = Some p ->
         nth_error points (S i) = Some q ->
         minSpacingOf (Some 5) <= distance q p.
Proof.
  split; [apply le_n|].
  exact (proj1 (C2_minimum_spacing 630 10 90 2 (Some 5) (le_n 630))).
Defined.

(** C7: with base radius 0, whatever the wind direction and the directional
    factor, the generator returns (no fault) a non-empty sequence of points
    that all are the origin; and for every input it returns at least one
    point. *)
Theorem C7_zero_radius (windDirectionDeg directionalFactor : R)
    (minSpacing : option R) :
  (exists points,
     getCustomFireFrontPoints 630 0 windDirectionDeg directionalFactor
       minSpacing = Some points
     /\ points <> []
     /\ Forall (fun p => x p = 0 /\ y p = 0 /\ distance p (mkPoint 0 0) = 0)
          points)
  /\ (forall baseRadius,
        exists p rest,
          getCustomFireFrontPoints 630 baseRadius windDirectionDeg
            directionalFactor minSpacing = Some (p :: rest)).
Proof.
  split.
  - destruct (boundary_head 630 0 windDirectionDeg directionalFactor
                minSpacing (le_n _)) as [rest Hrest].
    eexists. split; [exact Hrest|]. split; [discriminate|].
    rewrite getCustomFireFrontPoints_fold in Hrest by lia.
    apply Some_inj in Hrest. rewrite <- Hrest.
    apply fold_pushAt_Forall; [|constructor].
    intros a _. rewrite polarPoint_zero. unfold distance. simpl.
    repeat split; try reflexivity.
    replace ((0 - 0) * (0 - 0) + (0 - 0) * (0 - 0)) with 0 by ring.
    apply sqrt_0.
  - intros baseRadius.
    destruct (boundary_head 630 baseRadius windDirectionDeg directionalFactor
                minSpacing (le_n _)) as [rest Hrest].
    eauto.
Qed.

(** C10: for every base radius, wind angle, directional factor and minimum
    spacing the sampler terminates: started at angle 0 with step 0.01 it
    returns within 630 calls (a stack of 630 frames is enough, a deeper one
    changes nothing, and 629 frames are not enough) and the sequence it
    returns has at most 629 points. *)
Theorem C10_sampler_terminates
    (baseRadius windAngleDeg directionalFactor : R) (minDistance : option R) :
  exists points,
    getCustomFireFrontPoints 630 baseRadius windAngleDeg directionalFactor
      minDistance = Some points
    /\ (length points <= 629)%nat
    /\ (forall fuel, (630 <= fuel)%nat ->
          getCustomFireFrontPoints fuel baseRadius windAngleDeg
            directionalFactor minDistance = Some points)
    /\ getCustomFireFrontPoints 629 baseRadius windAngleDeg directionalFactor
         minDistance = None.
Proof.
  eexists. split; [apply getCustomFireFrontPoints_fold; lia|].
  split; [|split].
  - pose proof (fold_pushAt_length baseRadius (windAngleDeg * PI / 180)
                  ((directionalFactor - 1) * 1.5) (minSpacingOf minDistance)
                  (sampleAngles 629) []) as H.
    rewrite sampleAngles_length in H. exact H.
  - intros fuel Hfuel. now apply getCustomFireFrontPoints_fold.
  - apply getCustomFireFrontPoints_starved.
Qed.

(** ** The spread rate *)

Import Environment.

Lemma fuelModifier_of_string (fuelType : string) :
  (if (fuelType =? "dense")%string then 1.2 else 1.0)
  = fuelModifier (fuelDensityOf fuelType).
Proof. unfold fuelDensityOf. now destruct (fuelType =? "dense")%string. Qed.

Lemma landCoverModifier_of_string (landCover : string) :
  (if (landCover =? "forest")%string then 1.2
   else if (landCover =? "urban")%string
           || (landCover =? "residential")%string then 0.8
   else 1.0)
  = landCoverModifier (landCoverClassOf landCover).
Proof.
  unfold landCoverClassOf.
  destruct (landCover =? "forest")%string; [reflexivity|].
  destruct (landCover =? "urban")%string; [reflexivity|].
  now destruct (landCover =? "residential")%string.
Qed.

Lemma computeSpreadRate_spec v cur slope landCover :
  computeSpreadRate v cur slope landCover
  = spreadRate (sampleOf v cur slope landCover).
Proof.
  unfold computeSpreadRate, spreadRate, sampleOf. cbv zeta.
  cbn [temperature_C windSpeed_ms humidity_pct precipitation_mm slope_pct
       fuelDensity Environment.landCover].
  rewrite fuelModifier_of_string, landCoverModifier_of_string.
  replace (1.0 * (slope / 100)) with (slope / 100) by lra.
  reflexivity.
Qed.

(** In [script.js] itself the fuel class is sparse for every land cover. *)
Lemma script_js_fuel_sparse cur slope landCover :
  fuelDensity (sampleOf script_js cur slope landCover) = sparse.
Proof.
  unfold sampleOf, fuelType. cbn [fuelDensity woodlandFuelType script_js].
  now destruct ((landCover =? "forest")%string || (landCover =? "wood")%string).
Qed.

Lemma fuelModifier_pos f : 0 < fuelModifier f.
Proof. destruct f; simpl; lra. Qed.

Lemma landCoverModifier_pos c : 0 < landCoverModifier c.
Proof. destruct c; simpl; lra. Qed.

Lemma precipitationModifier_pos p : 0 < 1 - Rmin 0.5 (p * 0.2).
Proof. pose proof (Rmin_l 0.5 (p * 0.2)). lra. Qed.

(** The rate is the temperature modifier times the humidity modifier times a
    positive number. *)
Lemma spreadRate_factor (s : Sample) :
  exists c, 0 < c /\
    spreadRate s
    = (1 + (temperature_C s - 20) * 0.05)
      * (1 - (humidity_pct s / 100) * 0.5) * c.
Proof.
  exists (exp (0.05 * windSpeed_ms s) * exp (slope_pct s / 100)
          * fuelModifier (fuelDensity s)
          * (1 - Rmin 0.5 (precipitation_mm s * 0.2))
          * landCoverModifier (landCover s)).
  split.
  - repeat apply Rmult_lt_0_compat;
      auto using exp_pos, fuelModifier_pos, landCoverModifier_pos,
                 precipitationModifier_pos.
  - unfold spreadRate. real_field.
Qed.

(** The rate is the temperature, humidity and wind modifiers times a
    positive number that depends on the rest of the inputs only. *)
Lemma computeSpreadRate_split v precip slope landCoverTag :
  exists rest, 0 < rest /\
    forall t w d h,
      computeSpreadRate v (mkCurrent t w d h precip) slope landCoverTag
      = (1 + (t - 20) * 0.05) * (1 - h / 100 * 0.5)
        * exp (0.05 * (w / 3.6)) * rest.
Proof.
  exists (exp (slope / 100)
          * fuelModifier (fuelDensityOf (fuelType v landCoverTag))
          * (1 - Rmin 0.5 (match precip with Some p => p | None => 0 end * 0.2))
          * landCoverModifier (landCoverClassOf landCoverTag)).
  split.
  - repeat apply Rmult_lt_0_compat;
      auto using exp_pos, fuelModifier_pos, landCoverModifier_pos,
                 precipitationModifier_pos.
  - intros t w d h. rewrite computeSpreadRate_spec.
    unfold spreadRate, sampleOf.
    cbn [temperature_C windSpeed_ms humidity_pct precipitation_mm slope_pct
         fuelDensity landCover temp_c wind_kph humidity precip_mm].
    real_field.
Qed.

(** C3: the value the script assigns to the effective spread rate is the
    design document's [spreadRate] of the sample at hand (wind speed in m/s,
    fuel class and land-cover class as the script derives them), and
    [spreadRate] is the stated product: 1.0, the wind, temperature and slope
    modifiers, the fuel modifier (1.2 for dense, 1.0 otherwise), the
    humidity and precipitation modifiers and the land-cover modifier (1.2
    for forest, 0.8 for urban or residential, 1.0 otherwise). *)
Theorem C3_spread_rate_product (v : Variant) (cur : Current) (slope : R)
    (landCoverTag : string) (s : Simulation.State) :
  Simulation.effectiveSpreadRate
    (Simulation.terrainArrived v cur slope landCoverTag s)
  = spreadRate (sampleOf v cur slope landCoverTag)
  /\ (forall sample : Sample,
        spreadRate sample
        = 1.0 * exp (0.05 * windSpeed_ms sample)
          * (1 + (temperature_C sample - 20) * 0.05)
          * exp (slope_pct sample / 100)
          * match fuelDensity sample with dense => 1.2 | sparse => 1.0 end
          * (1 - (humidity_pct sample / 100) * 0.5)
          * (1 - Rmin 0.5 (precipitation_mm sample * 0.2))
          * match landCover sample with
            | forest => 1.2
            | urban | residential => 0.8
            | other => 1.0
            end).
Proof.
  split.
  - unfold Simulation.terrainArrived, Simulation.withSpreadRate.
    cbn [Simulation.effectiveSpreadRate]. apply computeSpreadRate_spec.
  - intros sample. reflexivity.
Qed.

Lemma frost_rate v : computeSpreadRate v frostCurrent 0 "unknown" = -0.5.
Proof.
  rewrite computeSpreadRate_spec. unfold spreadRate, sampleOf, frostCurrent.
  cbn [temperature_C windSpeed_ms humidity_pct precipitation_mm slope_pct
       fuelDensity landCover temp_c wind_kph humidity precip_mm].
  replace (0.05 * (0 / 3.6)) with 0 by lra.
  replace (0 / 100) with 0 by lra.
  rewrite exp_0.
  replace (Rmin 0.5 (0 * 0.2)) with 0
    by (unfold Rmin; destruct (Rle_dec 0.5 (0 * 0.2)); lra).
  change (landCoverClassOf "unknown") with other.
  change (fuelType v "unknown") with "sparse"%string.
  change (fuelDensityOf "sparse") with sparse.
  simpl. lra.
Qed.

(** C4, as stated, fails: at -10 degrees Celsius with no wind, no
    humidity, no rain and no slope the rate is -0.5, which is not above
    0. *)
Lemma C4_counterexample :
  computeSpreadRate script_js frostCurrent 0 "unknown" = -0.5
  /\ ~ (forall (v : Variant) (cur : Current) (slope : R)
            (landCoverTag : string),
          0 < computeSpreadRate v cur slope landCoverTag).
Proof.
  split; [apply frost_rate|].
  intros H. specialize (H script_js frostCurrent 0 "unknown"%string).
  rewrite frost_rate in H. lra.
Qed.

(** C4, amended: for a sample whose humidity is below 200 percent (every
    percentage is) the rate is proportional to the temperature in degrees
    Celsius, with a positive factor, the rate at 1 degree.  So it is
    strictly positive exactly when the temperature is above 0, it is 0 at
    0 degrees and negative below; and no clamp, floor or ceiling is
    applied: with the other fields of the sample kept, the rate exceeds
    every bound for a temperature high enough and falls below every bound
    for a temperature low enough. *)
Theorem C4_spread_rate_sign (v : Variant) (cur : Current) (slope : R)
    (landCoverTag : string) :
  humidity cur < 200 ->
  let rateAt t :=
    computeSpreadRate v
      (mkCurrent t (wind_kph cur) (wind_degree cur) (humidity cur)
         (precip_mm cur)) slope landCoverTag in
  let rate := computeSpreadRate v cur slope landCoverTag in
  rate = rateAt (temp_c cur)
  /\ 0 < rateAt 1
  /\ (forall t, rateAt t = t * rateAt 1)
  /\ (0 < rate <-> 0 < temp_c cur)
  /\ (temp_c cur = 0 -> rate = 0)
  /\ (temp_c cur < 0 -> rate < 0)
  /\ (forall bound, exists t, bound < rateAt t)
  /\ (forall bound, exists t, rateAt t < bound).
Proof.
  intros Hh rateAt rate.
  assert (Hcur : rate = rateAt (temp_c cur))
    by (unfold rate, rateAt; now destruct cur).
  destruct (computeSpreadRate_split v (precip_mm cur) slope landCoverTag)
    as [rest [Hrest Heq]].
  pose proof (exp_pos (0.05 * (wind_kph cur / 3.6))) as Hw.
  set (q := (1 - humidity cur / 100 * 0.5)
            * exp (0.05 * (wind_kph cur / 3.6)) * rest).
  assert (Hq : 0 < q)
    by (unfold q; repeat apply Rmult_lt_0_compat; lra).
  assert (Hat : forall t, rateAt t = 0.05 * t * q).
  { intros t. unfold rateAt, q. rewrite Heq. real_field. }
  assert (Hone : 0 < rateAt 1) by (rewrite Hat; lra).
  assert (Hlin : forall t, rateAt t = t * rateAt 1)
    by (intros t; rewrite !Hat; lra).
  split; [exact Hcur|]. split; [exact Hone|]. split; [exact Hlin|].
  rewrite Hcur, (Hlin (temp_c cur)).
  split; [|split; [|split; [|split]]].
  - split; intros H.
    + destruct (Rlt_dec 0 (temp_c cur)) as [Ht | Ht]; [exact Ht|].
      exfalso. assert (temp_c cur <= 0) by lra. nra.
    + now apply Rmult_lt_0_compat.
  - intros ->. ring.
  - intros Ht. nra.
  - intros bound. exists ((Rabs bound + 1) / rateAt 1).
    rewrite Hlin. pose proof (Rle_abs bound).
    replace ((Rabs bound + 1) / rateAt 1 * rateAt 1) with (Rabs bound + 1)
      by (field; lra).
    lra.
  - intros bound. exists (- (Rabs bound + 1) / rateAt 1).
    rewrite Hlin. pose proof (Rle_abs (- bound)) as Habs.
    rewrite Rabs_Ropp in Habs.
    replace (- (Rabs bound + 1) / rateAt 1 * rateAt 1)
      with (- (Rabs bound + 1)) by (field; lra).
    lra.
Qed.

Lemma C4_spread_rate_sign_witness :
  humidity mildCurrent < 200 /\
  (0 < computeSpreadRate script_js mildCurrent 0 "unknown"
   <-> 0 < temp_c mildCurrent).
Proof.
  assert (H : humidity mildCurrent < 200) by (simpl; lra).
  split; [exact H|].
  exact (proj1 (proj2 (proj2 (proj2
           (C4_spread_rate_sign script_js mildCurrent 0 "unknown" H))))).
Defined.

(** ** Scenario radii *)

Import Simulation.

Lemma front_total b w f :
  exists points,
    getCustomFireFrontPoints samplerDepth b w f None = Some points.
Proof.
  eexists. apply getCustomFireFrontPoints_fold. apply le_n.
Qed.

Lemma scenarioRadiusPx_drawn v s t m :
  scenarioRadiusPx v (drawFire (drawMap s)) t m = scenarioRadiusPx v s t m.
Proof.
  unfold drawFire. destruct (fireStartLatLng (drawMap s)); reflexivity.
Qed.

(** One tick below the step count, with an ignition point: what is drawn,
    what is written and what is scheduled. *)
Lemma animate_tick v t total s ignition :
  (t < simulationSteps)%nat ->
  fireStartLatLng s = Some ignition ->
  exists bestPoints neutralPoints worstPoints,
    getCustomFireFrontPoints samplerDepth
      (scenarioRadiusPx v s t bestMultiplier)
      (globalWindDegree s) (globalDirectionalFactor s) None = Some bestPoints
    /\ getCustomFireFrontPoints samplerDepth
      (scenarioRadiusPx v s t neutralMultiplier)
      (globalWindDegree s) (globalDirectionalFactor s) None = Some neutralPoints
    /\ getCustomFireFrontPoints samplerDepth
      (scenarioRadiusPx v s t worstMultiplier)
      (globalWindDegree s) (globalDirectionalFactor s) None = Some worstPoints
    /\ animateFireSpread v t total s
       = (setTimeout
            (AnimateTimer (t + 1) total (total / INR simulationSteps))
            (withClock t (INR t * simTimeStepMinutes)
               (withCanvas
                  (frame (latLngToContainerPoint s ignition)
                     bestPoints neutralPoints worstPoints) s)),
          [Presented t]).
Proof.
  intros Ht Hfire.
  destruct (front_total (scenarioRadiusPx v s t bestMultiplier)
              (globalWindDegree s) (globalDirectionalFactor s)) as [bp Hb].
  destruct (front_total (scenarioRadiusPx v s t neutralMultiplier)
              (globalWindDegree s) (globalDirectionalFactor s)) as [np Hn].
  destruct (front_total (scenarioRadiusPx v s t worstMultiplier)
              (globalWindDegree s) (globalDirectionalFactor s)) as [wp Hw].
  exists bp, np, wp. repeat (split; [assumption|]).
  unfold animateFireSpread.
  assert (Hleb : (simulationSteps <=? t)%nat = false)
    by (apply Nat.leb_gt; exact Ht).
  rewrite Hleb. cbv zeta.
  change (fireStartLatLng (drawMap s)) with (fireStartLatLng s).
  rewrite Hfire. rewrite !scenarioRadiusPx_drawn.
  assert (Hdraw : drawFire (drawMap s)
                  = withCanvas [FireDot (latLngToContainerPoint s ignition)] s).
  { unfold drawFire.
    change (fireStartLatLng (drawMap s)) with (fireStartLatLng s).
    rewrite Hfire. reflexivity. }
  rewrite Hdraw.
  change (globalWindDegree (withCanvas _ s)) with (globalWindDegree s).
  change (globalDirectionalFactor (withCanvas _ s))
    with (globalDirectionalFactor s).
  rewrite Hb, Hn, Hw. reflexivity.
Qed.

Lemma INR_one : INR 1 = 1.
Proof. reflexivity. Qed.

(** C5, as stated, fails for [script.js]: there the base radius handed to
    the generator is five times the converted radius (here at time index 1,
    best case, rate 1, on the example page). *)
Lemma C5_counterexample :
  scenarioRadiusPx script_js ignitedState 1 bestMultiplier
  <> metersToPixels script_js ignitedState
       (scenarioRadius 1 (effectiveSpreadRate ignitedState) bestMultiplier).
Proof.
  unfold scenarioRadiusPx, metersToPixels, scenarioRadius, bestMultiplier.
  cbn [script_js prefersCurrentCenter displayScaleFactor ignitedState
       currentCenter effectiveSpreadRate latLngToContainerPoint lat lng
       plainProjection x].
  replace (0 * PI / 180) with 0 by lra.
  rewrite cos_0, INR_one.
  replace (0 + 1 * 1.0 * 0.8 / (40075000 * 1 / 360) - 0)
    with (0.8 * 360 / 40075000) by lra.
  rewrite Rabs_pos_eq by lra. lra.
Qed.

(** C5, amended: each scenario radius is
    [t * effectiveSpreadRate * multiplier] with multipliers 0.8, 1.0 and
    1.2, and the base radius from which the generator draws the scenario's
    polygon at time index [t] is this radius converted by [metersToPixels]
    and multiplied by the display scale factor: 5 in [script.js], 1 (no
    further scaling) in the variant. *)
Theorem C5_scenario_base_radius (v : Variant) (t : nat) (totalRealTime : R)
    (s : State) (ignition : LatLng) :
  (t < simulationSteps)%nat ->
  fireStartLatLng s = Some ignition ->
  let rate := effectiveSpreadRate s in
  let baseRadius multiplier :=
    metersToPixels v s (INR t * rate * multiplier) * displayScaleFactor v in
  let front multiplier :=
    getCustomFireFrontPoints samplerDepth (baseRadius multiplier)
      (globalWindDegree s) (globalDirectionalFactor s) None in
  (exists bestPoints neutralPoints worstPoints,
     front 0.8 = Some bestPoints
     /\ front 1.0 = Some neutralPoints
     /\ front 1.2 = Some worstPoints
     /\ canvas (fst (animateFireSpread v t totalRealTime s))
        = frame (latLngToContainerPoint s ignition)
            bestPoints neutralPoints worstPoints)
  /\ displayScaleFactor script_js = 5
  /\ (forall multiplier,
        scenarioRadiusPx script_variant s t multiplier
        = metersToPixels script_variant s (INR t * rate * multiplier)).
Proof.
  intros Ht Hfire rate baseRadius front. split; [|split].
  - destruct (animate_tick v t totalRealTime s ignition Ht Hfire)
      as [bp [np [wp [Hb [Hn [Hw Hrun]]]]]].
    exists bp, np, wp. repeat (split; [assumption|]).
    rewrite Hrun. reflexivity.
  - reflexivity.
  - intros multiplier. unfold scenarioRadiusPx, scenarioRadius.
    cbn [displayScaleFactor script_variant]. fold rate. lra.
Qed.

Lemma C5_scenario_base_radius_witness :
  (3 < simulationSteps)%nat /\
  fireStartLatLng ignitedState = Some (mkLatLng 0 0) /\
  exists bestPoints neutralPoints worstPoints,
    canvas (fst (animateFireSpread script_js 3 10000 ignitedState))
    = frame (latLngToContainerPoint ignitedState (mkLatLng 0 0))
        bestPoints neutralPoints worstPoints.
Proof.
  assert (Ht : (3 < simulationSteps)%nat) by (unfold simulationSteps; lia).
  split; [exact Ht|]. split; [reflexivity|].
  destruct (proj1 (C5_scenario_base_radius script_js 3 10000 ignitedState
                     (mkLatLng 0 0) Ht eq_refl))
    as [bp [np [wp [_ [_ [_ Hcanvas]]]]]].
  exists bp, np, wp. exact Hcanvas.
Defined.

(** C6: for a time index above 0 and a positive rate the three radii are
    ordered, best case first. *)
Theorem C6_scenario_ordering (t : nat) (rate : R) :
  (0 < t)%nat -> 0 < rate ->
  scenarioRadius t rate bestMultiplier <= scenarioRadius t rate neutralMultiplier
  /\ scenarioRadius t rate neutralMultiplier <= scenarioRadius t rate worstMultiplier.
Proof.
  intros Ht Hrate. apply lt_0_INR in Ht.
  unfold scenarioRadius, bestMultiplier, neutralMultiplier, worstMultiplier.
  assert (0 < INR t * rate) by now apply Rmult_lt_0_compat.
  split; nra.
Qed.

Lemma C6_scenario_ordering_witness :
  (0 < 10)%nat /\ 0 < 1 /\
  scenarioRadius 10 1 bestMultiplier <= scenarioRadius 10 1 neutralMultiplier
  /\ scenarioRadius 10 1 neutralMultiplier <= scenarioRadius 10 1 worstMultiplier.
Proof.
  assert (Ht : (0 < 10)%nat) by lia.
  assert (Hr : 0 < 1) by lra.
  split; [exact Ht|]. split; [exact Hr|].
  exact (C6_scenario_ordering 10 1 Ht Hr).
Defined.

(** ** The animator *)

(** What a tick below the step count leaves behind. *)
Lemma tick_effect v t total s ignition :
  (t < simulationSteps)%nat ->
  fireStartLatLng s = Some ignition ->
  exists s',
    animateFireSpread v t total s = (s', [Presented t])
    /\ fireStartLatLng s' = Some ignition
    /\ currentCenter s' = currentCenter s
    /\ simulationRunning s' = simulationRunning s
    /\ effectiveSpreadRate s' = effectiveSpreadRate s
    /\ timeSlider s' = t
    /\ timers s' = timers s ++ [AnimateTimer (t + 1) total (tickDelay total)].
Proof.
  intros Ht Hfire.
  destruct (animate_tick v t total s ignition Ht Hfire)
    as [bp [np [wp [_ [_ [_ Hrun]]]]]].
  eexists. split; [exact Hrun|].
  cbn [setTimeout withTimers withClock withCanvas fireStartLatLng
       currentCenter simulationRunning effectiveSpreadRate timeSlider timers].
  repeat split; try reflexivity. exact Hfire.
Qed.

(** The tick at the step count ends the run and schedules nothing. *)
Lemma tick_last v t total s :
  (simulationSteps <= t)%nat ->
  animateFireSpread v t total s = (withRunning false s, []).
Proof.
  intros Ht. unfold animateFireSpread.
  assert (H : (simulationSteps <=? t)%nat = true) by now apply Nat.leb_le.
  now rewrite H.
Qed.

Lemma simulateFireSpread_start v input s ignition :
  fireStartLatLng s = Some ignition ->
  simulateFireSpread v input s
  = animateFireSpread v 0 (totalRealTimeOf input) (withRunning true s).
Proof.
  intros Hfire. unfold simulateFireSpread, totalRealTimeOf.
  now rewrite Hfire.
Qed.

Lemma fire_oldest_animate v t total d rest s :
  timers s = AnimateTimer t total d :: rest ->
  fire v 0 s = animateFireSpread v t total (withTimers rest s).
Proof.
  intros Ht. unfold fire. rewrite Ht. reflexivity.
Qed.

Lemma fire_nothing v n s : timers s = [] -> fire v n s = (s, []).
Proof.
  intros Ht. unfold fire. rewrite Ht. now destruct n.
Qed.

Lemma fireOldest_idle v n : forall s, timers s = [] -> fireOldest v n s = (s, []).
Proof.
  induction n as [|n IH]; intros s Ht; [reflexivity|].
  cbn [fireOldest]. rewrite (fire_nothing v 0 s Ht).
  now rewrite (IH s Ht).
Qed.

Lemma fireOldest_add v a : forall b s,
  fireOldest v (a + b) s
  = let '(s1, e1) := fireOldest v a s in
    let '(s2, e2) := fireOldest v b s1 in
    (s2, e1 ++ e2).
Proof.
  induction a as [|a IH]; intros b s.
  - cbn [Nat.add fireOldest]. now destruct (fireOldest v b s).
  - cbn [Nat.add fireOldest]. destruct (fire v 0 s) as [s1 e1].
    rewrite IH. destruct (fireOldest v a s1) as [s2 e2].
    destruct (fireOldest v b s2) as [s3 e3]. now rewrite app_assoc.
Qed.

(** [j] ticks in a row, from a state where tick [t] is the only pending
    timer. *)
Lemma run_ticks v total ignition j : forall t s,
  (t + j <= simulationSteps)%nat ->
  fireStartLatLng s = Some ignition ->
  timers s = [AnimateTimer t total (tickDelay total)] ->
  timeSlider s = (t - 1)%nat ->
  exists s' e,
    fireOldest v j s = (s', e)
    /\ fireStartLatLng s' = Some ignition
    /\ simulationRunning s' = simulationRunning s
    /\ timers s' = [AnimateTimer (t + j) total (tickDelay total)]
    /\ timeSlider s' = (t + j - 1)%nat
    /\ presented e = seq t j.
Proof.
  induction j as [|j IH]; intros t s Hle Hfire Htimers Hslider.
  - exists s, []. rewrite Nat.add_0_r. cbn [fireOldest].
    repeat split; auto.
  - cbn [fireOldest]. rewrite (fire_oldest_animate v t total _ [] s Htimers).
    destruct (tick_effect v t total (withTimers [] s) ignition)
      as [s1 [Hrun [Hf1 [_ [Hr1 [_ [Hs1 Ht1]]]]]]]; [lia | exact Hfire |].
    rewrite Hrun. cbn [timers withTimers app] in Ht1.
    destruct (IH (t + 1)%nat s1) as [s2 [e2 [Hrun2 [Hf2 [Hr2 [Ht2 [Hs2 Hp2]]]]]]];
      [lia | exact Hf1 | exact Ht1 | rewrite Hs1; lia |].
    rewrite Hrun2. exists s2, ([Presented t] ++ e2).
    split; [reflexivity|]. split; [exact Hf2|].
    split; [rewrite Hr2, Hr1; reflexivity|].
    split; [rewrite Ht2; do 2 f_equal; lia|].
    split; [rewrite Hs2; lia|].
    cbn [app presented seq]. rewrite Hp2. do 2 f_equal. lia.
Qed.

(** C8: without an ignition point [simulateFireSpread] only shows a message
    and leaves the state as it is.  With one (and nothing else pending) it
    sets the running flag, presents time index 0 and schedules tick 1; as
    long as fewer than [simulationSteps] timers have expired the run is
    still under way with exactly the next tick pending and the time indices
    presented so far are 0, 1, ..., n in this order; when [simulationSteps]
    timers have expired the running flag is off, the time indices 0 to
    [simulationSteps - 1] have been presented in increasing order, nothing
    is pending and nothing happens any more. *)
Theorem C8_animator_lifecycle (v : Variant) (simRunTimeSec : option R)
    (s : State) :
  timers s = [] ->
  (fireStartLatLng s = None ->
   exists message,
     simulateFireSpread v simRunTimeSec s = (s, [Alert message]))
  /\ (forall ignition, fireStartLatLng s = Some ignition ->
      let total := totalRealTimeOf simRunTimeSec in
      exists s0,
        simulateFireSpread v simRunTimeSec s = (s0, [Presented 0])
        /\ simulationRunning s0 = true
        /\ timeSlider s0 = 0%nat
        /\ timers s0 = [AnimateTimer 1 total (tickDelay total)]
        /\ (forall n, (n < simulationSteps)%nat ->
            exists sn en,
              fireOldest v n s0 = (sn, en)
              /\ simulationRunning sn = true
              /\ timeSlider sn = n
              /\ timers sn = [AnimateTimer (n + 1) total (tickDelay total)]
              /\ presented (Presented 0 :: en) = seq 0 (n + 1))
        /\ (exists sN eN,
              fireOldest v simulationSteps s0 = (sN, eN)
              /\ simulationRunning sN = false
              /\ timers sN = []
              /\ presented (Presented 0 :: eN) = seq 0 simulationSteps
              /\ forall m, fireOldest v m sN = (sN, []))).
Proof.
  intros Hidle. split.
  - intros Hnone. unfold simulateFireSpread. rewrite Hnone. eauto.
  - intros ignition Hfire total.
    rewrite (simulateFireSpread_start v simRunTimeSec s ignition Hfire).
    fold total.
    destruct (tick_effect v 0 total (withRunning true s) ignition)
      as [s0 [Hrun [Hf0 [_ [Hr0 [_ [Hs0 Ht0]]]]]]];
      [unfold simulationSteps; lia | exact Hfire |].
    cbn [timers withRunning simulationRunning] in Ht0, Hr0.
    rewrite Hidle in Ht0. cbn [app Nat.add] in Ht0.
    exists s0. split; [exact Hrun|]. split; [exact Hr0|].
    split; [exact Hs0|]. split; [exact Ht0|]. split.
    + intros n Hn.
      destruct (run_ticks v total ignition n 1 s0)
        as [sn [en [Hrn [_ [Hrun' [Htn [Hsn Hpn]]]]]]];
        [lia | exact Hf0 | exact Ht0 | rewrite Hs0; reflexivity |].
      exists sn, en. split; [exact Hrn|].
      split; [rewrite Hrun'; exact Hr0|].
      split; [rewrite Hsn; lia|].
      split; [rewrite Htn; do 2 f_equal; lia|].
      cbn [presented]. rewrite Hpn.
      replace (n + 1)%nat with (S n) by lia. reflexivity.
    + destruct (run_ticks v total ignition 29 1 s0)
        as [s29 [e29 [Hr29 [_ [_ [Ht29 [_ Hp29]]]]]]];
        [unfold simulationSteps; lia | exact Hf0 | exact Ht0
        | rewrite Hs0; reflexivity |].
      change simulationSteps with (29 + 1)%nat at 1.
      rewrite fireOldest_add, Hr29. cbn [fireOldest].
      cbn [Nat.add] in Ht29.
      rewrite (fire_oldest_animate v 30 total _ [] s29 Ht29).
      rewrite tick_last by (unfold simulationSteps; lia).
      eexists _, _. split; [reflexivity|].
      split; [reflexivity|]. split; [reflexivity|]. split.
      * rewrite !app_nil_r. cbn [presented]. rewrite Hp29. reflexivity.
      * intros m. apply fireOldest_idle. reflexivity.
Qed.

Lemma C8_animator_lifecycle_witness :
  timers ignitedState = [] /\
  exists s0,
    simulateFireSpread script_js None ignitedState = (s0, [Presented 0])
    /\ simulationRunning s0 = true.
Proof.
  split; [reflexivity|].
  destruct (proj2 (C8_animator_lifecycle script_js None ignitedState eq_refl)
              (mkLatLng 0 0) eq_refl) as [s0 [Hrun [Hflag _]]].
  exists s0. split; [exact Hrun | exact Hflag].
Defined.

(** ** Reset *)

(** The start button on a page with an ignition point: the first frame is
    presented, the next tick and the next environmental poll are pending. *)
Lemma setFireButtonClick_start v input s ignition :
  fireStartLatLng s = Some ignition ->
  exists s1,
    setFireButtonClick v input s = (s1, [Presented 0; EnvRequest ignition])
    /\ fireStartLatLng s1 = Some ignition
    /\ simulationRunning s1 = true
    /\ timers s1
       = timers s
         ++ [AnimateTimer 1 (totalRealTimeOf input)
               (tickDelay (totalRealTimeOf input));
             EnvTimer 2 1000].
Proof.
  intros Hfire. unfold setFireButtonClick. rewrite Hfire.
  rewrite (simulateFireSpread_start v input s ignition Hfire).
  destruct (tick_effect v 0 (totalRealTimeOf input) (withRunning true s)
              ignition)
    as [s0 [Hrun [Hf0 [_ [Hr0 [_ [_ Ht0]]]]]]];
    [unfold simulationSteps; lia | exact Hfire |].
  rewrite Hrun. unfold recursiveUpdateEnvData.
  cbn [simulationRunning withRunning] in Hr0. rewrite Hr0, Hf0.
  cbn [negb]. eexists. split; [reflexivity|].
  cbn [setTimeout withTimers fireStartLatLng simulationRunning timers].
  split; [exact Hf0|]. split; [exact Hr0|].
  rewrite Ht0. cbn [timers withRunning Nat.add].
  now rewrite <- app_assoc.
Qed.

(** What a reset does and what it leaves alone.  It is possible in every
    state and idempotent; it clears the ignition point, the canvas, the
    resource markers and the time slider; it assigns neither the running
    flag nor the timer queue.  A poll reads the running flag first and
    does nothing at all when it is off; in the state a reset leaves, a
    poll sends no request. *)
Lemma reset_effect (v : Variant) (s : State) :
  clearFire v (clearFire v s) = clearFire v s
  /\ fireStartLatLng (clearFire v s) = None
  /\ canvas (clearFire v s) = []
  /\ fireResourceMarkers (clearFire v s) = []
  /\ timeSlider (clearFire v s) = 0%nat
  /\ simulationRunning (clearFire v s) = simulationRunning s
  /\ timers (clearFire v s) = timers s
  /\ (forall iteration s',
        simulationRunning s' = false ->
        recursiveUpdateEnvData iteration s' = (s', []))
  /\ (forall iteration,
        snd (recursiveUpdateEnvData iteration (clearFire v s)) = []).
Proof.
  repeat (split; [reflexivity|]). split.
  - intros iteration s' Hoff. unfold recursiveUpdateEnvData.
    now rewrite Hoff.
  - intros iteration. unfold recursiveUpdateEnvData.
    cbn [simulationRunning fireStartLatLng clearFire].
    now destruct (simulationRunning s).
Qed.

(** ** Ticks and polls in any order of expiry *)

Lemma pendingTicks_app q1 q2 :
  pendingTicks (q1 ++ q2) = pendingTicks q1 ++ pendingTicks q2.
Proof.
  induction q1 as [|t q1 IH]; [reflexivity|].
  destruct t; cbn [app pendingTicks]; now rewrite IH.
Qed.

Lemma dropNth_split {A : Type} (n : nat) : forall (q : list A) t,
  nth_error q n = Some t ->
  exists q1 q2, q = q1 ++ t :: q2 /\ dropNth n q = q1 ++ q2.
Proof.
  induction n as [|n IH]; intros [|a q] t H; try discriminate.
  - injection H as ->. now exists [], q.
  - cbn [nth_error] in H. destruct (IH q t H) as [q1 [q2 [-> Hdrop]]].
    exists (a :: q1), q2. cbn [dropNth app]. now rewrite Hdrop.
Qed.

(** An expiry while a run is under way: a poll changes nothing about the
    run, the tick below the step count presents its index and schedules
    the next one, the tick at the step count ends the run. *)
Lemma fire_underWay v ignition k s n :
  underWay ignition k s ->
  exists s' e,
    fire v n s = (s', e)
    /\ ((underWay ignition k s' /\ presented e = [])
        \/ ((k < simulationSteps)%nat
            /\ underWay ignition (k + 1) s' /\ presented e = [k])
        \/ (k = simulationSteps /\ complete s' /\ presented e = [])).
Proof.
  intros [Hfire [Hflag [Hticks Hk]]]. unfold fire.
  destruct (nth_error (timers s) n) as [t|] eqn:Hn.
  - destruct (dropNth_split n (timers s) t Hn) as [q1 [q2 [Hq Hdrop]]].
    rewrite Hdrop. rewrite Hq, pendingTicks_app in Hticks.
    destruct t as [i total d | iteration d]; cbn [runTimer].
    + cbn [pendingTicks] in Hticks.
      destruct (pendingTicks q1) as [|a l] eqn:E1; cbn [app] in Hticks;
        [|destruct l; discriminate].
      injection Hticks as Hi E2. subst i.
      destruct (Nat.lt_ge_cases k simulationSteps) as [Hlt | Hge].
      * destruct (tick_effect v k total (withTimers (q1 ++ q2) s) ignition
                    Hlt Hfire)
          as [s' [Hrun [Hf' [_ [Hr' [_ [_ Ht']]]]]]].
        exists s', [Presented k]. split; [exact Hrun|].
        right; left. split; [exact Hlt|]. split; [|reflexivity].
        split; [exact Hf'|]. split; [rewrite Hr'; exact Hflag|].
        split; [|lia].
        rewrite Ht'. cbn [timers withTimers].
        rewrite !pendingTicks_app, E1, E2. reflexivity.
      * rewrite tick_last by exact Hge. eexists _, _.
        split; [reflexivity|]. right; right.
        split; [lia|]. split; [|reflexivity]. split; [reflexivity|].
        cbn [timers withTimers withRunning].
        now rewrite pendingTicks_app, E1, E2.
    + cbn [pendingTicks] in Hticks. unfold recursiveUpdateEnvData.
      cbn [simulationRunning withTimers]. rewrite Hflag. cbn [negb].
      eexists _, _. split; [reflexivity|]. left. split.
      * split; [exact Hfire|]. split; [exact Hflag|]. split; [|exact Hk].
        cbn [setTimeout timers withTimers].
        rewrite !pendingTicks_app. cbn [pendingTicks]. rewrite app_nil_r.
        exact Hticks.
      * cbn [fireStartLatLng withTimers]. rewrite Hfire. reflexivity.
  - exists s, []. split; [reflexivity|]. left.
    split; [|reflexivity]. repeat split; assumption.
Qed.

(** An expiry after the run is over: no frame is presented, no animator
    timer appears, and a poll neither sends a request nor schedules a
    successor. *)
Lemma fire_complete v s n :
  complete s ->
  exists s',
    fire v n s = (s', [])
    /\ complete s'
    /\ (length (timers s') <= length (timers s))%nat.
Proof.
  intros [Hflag Hticks]. unfold fire.
  destruct (nth_error (timers s) n) as [t|] eqn:Hn.
  - destruct (dropNth_split n (timers s) t Hn) as [q1 [q2 [Hq Hdrop]]].
    rewrite Hdrop. rewrite Hq, pendingTicks_app in Hticks.
    destruct t as [i total d | iteration d]; cbn [runTimer].
    + cbn [pendingTicks] in Hticks. destruct (pendingTicks q1); discriminate.
    + cbn [pendingTicks] in Hticks. unfold recursiveUpdateEnvData.
      cbn [simulationRunning withTimers]. rewrite Hflag. cbn [negb].
      eexists. split; [reflexivity|]. split.
      * split; [exact Hflag|]. cbn [timers withTimers].
        now rewrite pendingTicks_app.
      * cbn [timers withTimers]. rewrite Hq, !length_app. simpl. lia.
  - exists s. split; [reflexivity|]. split; [now split | lia].
Qed.

Lemma run_complete v schedule : forall s,
  complete s ->
  exists s', run v schedule s = (s', []) /\ complete s'.
Proof.
  induction schedule as [|n schedule IH]; intros s Hdone.
  - now exists s.
  - cbn [run]. destruct (fire_complete v s n Hdone) as [s1 [-> [Hdone1 _]]].
    destruct (IH s1 Hdone1) as [s2 [-> Hdone2]]. now exists s2.
Qed.

(** Whatever the order in which ticks and polls expire, the time indices
    are presented in increasing order without a gap, and the run is either
    still under way with the next tick pending or over. *)
Lemma run_underWay v ignition schedule : forall k s,
  underWay ignition k s ->
  exists s' e,
    run v schedule s = (s', e)
    /\ ((exists k', (k <= k' <= simulationSteps)%nat
                    /\ underWay ignition k' s'
                    /\ presented e = seq k (k' - k))
        \/ (complete s' /\ presented e = seq k (simulationSteps - k))).
Proof.
  induction schedule as [|n schedule IH]; intros k s Hrun.
  - exists s, []. split; [reflexivity|]. left. exists k.
    destruct Hrun as [? [? [? ?]]].
    split; [lia|]. split; [repeat split; assumption|].
    now rewrite Nat.sub_diag.
  - cbn [run].
    destruct (fire_underWay v ignition k s n Hrun)
      as [s1 [e1 [-> [[Hrun1 He1] | [[Hlt [Hrun1 He1]] | [Hk [Hdone He1]]]]]]].
    + destruct (IH k s1 Hrun1) as [s2 [e2 [-> Hcases]]].
      exists s2, (e1 ++ e2). split; [reflexivity|].
      assert (Hp : presented (e1 ++ e2) = presented e2).
      { clear -He1. induction e1 as [|a e1 IHe]; [reflexivity|].
        destruct a; cbn [app presented] in *; try discriminate; auto. }
      rewrite Hp. exact Hcases.
    + destruct (IH (k + 1)%nat s1 Hrun1) as [s2 [e2 [-> Hcases]]].
      exists s2, (e1 ++ e2). split; [reflexivity|].
      assert (Hp : presented (e1 ++ e2) = k :: presented e2).
      { clear -He1. induction e1 as [|a e1 IHe]; [discriminate|].
        destruct a; cbn [app presented] in *; auto.
        injection He1 as -> He1. f_equal.
        clear -He1. induction e1 as [|a e1 IHe]; [reflexivity|].
        destruct a; cbn [app presented] in *; try discriminate; auto. }
      rewrite Hp.
      destruct Hcases as [[k' [Hk' [Hrun2 He2]]] | [Hdone He2]].
      * left. exists k'. split; [lia|]. split; [exact Hrun2|].
        rewrite He2. replace (k' - k)%nat with (S (k' - (k + 1))) by lia.
        cbn [seq]. now rewrite Nat.add_1_r.
      * right. split; [exact Hdone|]. rewrite He2.
        replace (simulationSteps - k)%nat
          with (S (simulationSteps - (k + 1))) by lia.
        cbn [seq]. now rewrite Nat.add_1_r.
    + destruct (run_complete v schedule s1 Hdone) as [s2 [-> Hdone2]].
      exists s2, (e1 ++ []). split; [reflexivity|]. right.
      split; [exact Hdone2|]. rewrite app_nil_r, He1, Hk.
      now rewrite Nat.sub_diag.
Qed.

(** The start button, then any order of expiry: the frames presented are
    those of the time indices 0, 1, ..., in this order and without a gap,
    up to at most [simulationSteps - 1]. *)
Lemma button_then_any_schedule v input s ignition schedule :
  fireStartLatLng s = Some ignition ->
  pendingTicks (timers s) = [] ->
  exists s1 e1 s2 e2 k,
    setFireButtonClick v input s = (s1, e1)
    /\ run v schedule s1 = (s2, e2)
    /\ (1 <= k <= simulationSteps)%nat
    /\ presented (e1 ++ e2) = seq 0 k
    /\ (underWay ignition k s2 \/ (k = simulationSteps /\ complete s2)).
Proof.
  intros Hfire Hnone.
  destruct (setFireButtonClick_start v input s ignition Hfire)
    as [s1 [Hclick [Hf1 [Hr1 Ht1]]]].
  assert (Hrun : underWay ignition 1 s1).
  { split; [exact Hf1|]. split; [exact Hr1|]. split.
    - rewrite Ht1, pendingTicks_app, Hnone. reflexivity.
    - unfold simulationSteps. lia. }
  destruct (run_underWay v ignition schedule 1 s1 Hrun)
    as [s2 [e2 [Hrun2 Hcases]]].
  destruct Hcases as [[k [Hk [Hway He2]]] | [Hdone He2]].
  - exists s1, [Presented 0; EnvRequest ignition], s2, e2, k.
    split; [exact Hclick|]. split; [exact Hrun2|]. split; [lia|]. split.
    + cbn [app presented]. rewrite He2.
      replace k with (S (k - 1)) at 2 by lia. reflexivity.
    + left. exact Hway.
  - exists s1, [Presented 0; EnvRequest ignition], s2, e2, simulationSteps.
    split; [exact Hclick|]. split; [exact Hrun2|].
    split; [unfold simulationSteps; lia|]. split.
    + cbn [app presented]. rewrite He2. reflexivity.
    + right. split; [reflexivity | exact Hdone].
Qed.

(** * Further properties *)

(** ** The boundary sampler: order, extent, degenerate inputs *)

Lemma distance_sym p q : distance p q = distance q p.
Proof. unfold distance. f_equal. ring. Qed.

Lemma distance_nonneg p q : 0 <= distance p q.
Proof. unfold distance. apply sqrt_pos. Qed.

Lemma distance_triangle p q o :
  distance p q <= distance p o + distance q o.
Proof.
  rewrite (distance_sym q o).
  pose proof (Rgeom.triangle (x p) (y p) (x q) (y q) (x o) (y o)) as H.
  unfold Rgeom.dist_euc, Rsqr in H. exact H.
Qed.

(** A candidate lies as far from the ignition point as the modulated radius
    says, in absolute value. *)
Lemma polarPoint_radius b w k theta :
  distance (polarPoint b w k theta) (mkPoint 0 0)
  = Rabs (b * (1 + k * cos (theta - w))).
Proof.
  unfold distance, polarPoint. cbn [x y].
  set (r := b * (1 + k * cos (theta - w))).
  rewrite <- sqrt_Rsqr_abs. f_equal.
  pose proof (sin2_cos2 theta) as H. unfold Rsqr in *.
  replace ((r * cos theta - 0) * (r * cos theta - 0)
           + (r * sin theta - 0) * (r * sin theta - 0))
    with (r * r * (sin theta * sin theta + cos theta * cos theta)) by ring.
  rewrite H. ring.
Qed.

Lemma polarPoint_within b w k theta :
  distance (polarPoint b w k theta) (mkPoint 0 0) <= Rabs b * (1 + Rabs k).
Proof.
  rewrite polarPoint_radius, Rabs_mult.
  apply Rmult_le_compat_l; [apply Rabs_pos|].
  eapply Rle_trans; [apply Rabs_triang|].
  rewrite Rabs_R1, Rabs_mult.
  pose proof (COS_bound (theta - w)) as [Hlo Hhi].
  assert (Rabs (cos (theta - w)) <= 1) by (apply Rabs_le; lra).
  pose proof (Rabs_pos k). nra.
Qed.

Lemma visited_more n : forall m theta step a,
  (n <= m)%nat -> In a (visited n theta step) -> In a (visited m theta step).
Proof.
  induction n as [|n IH]; intros m theta step a Hm Hin; [destruct Hin|].
  destruct m as [|m]; [lia|]. cbn [visited In] in *.
  destruct Hin as [-> | Hin]; [now left|]. right.
  apply IH; [lia | exact Hin].
Qed.

(** A result means the stack was deep enough, and then the result is the
    fold over the 629 sample angles. *)
Lemma getCustomFireFrontPoints_inv fuel b wdeg f md points :
  getCustomFireFrontPoints fuel b wdeg f md = Some points ->
  (630 <= fuel)%nat
  /\ points
     = fold_left (pushAt b (wdeg * PI / 180) ((f - 1) * 1.5) (minSpacingOf md))
         (sampleAngles 629) [].
Proof.
  intros Hrun.
  destruct (Nat.lt_ge_cases fuel 630) as [Hlt | Hge].
  - exfalso. unfold getCustomFireFrontPoints in Hrun. cbv zeta in Hrun.
    rewrite compute_starved in Hrun; [discriminate|].
    intros a Ha.
    assert (Hin : In a (visited 629 0 0.01))
      by (apply (visited_more fuel); [lia | exact Ha]).
    rewrite visited_sampleAngles in Hin.
    apply sampleAngles_in in Hin as [i [Hi ->]].
    apply sample_in_turn. exact Hi.
  - split; [exact Hge|].
    rewrite getCustomFireFrontPoints_fold in Hrun by exact Hge.
    apply Some_inj in Hrun. now subst points.
Qed.

(** X1: every point of a returned boundary lies within
    [|baseRadius| * (1 + |k|)] of the ignition point,
    [k = (directionalFactor - 1) * 1.5]; without wind elongation
    ([directionalFactor = 1]) every point lies on the circle of radius
    [|baseRadius|]. *)
Theorem boundary_extent (fuel : nat)
    (baseRadiusPx windAngleDeg directionalFactor : R)
    (minDistance : option R) (points : list Point) :
  getCustomFireFrontPoints fuel baseRadiusPx windAngleDeg directionalFactor
    minDistance = Some points ->
  Forall (fun p => distance p (mkPoint 0 0)
                   <= Rabs baseRadiusPx
                      * (1 + Rabs ((directionalFactor - 1) * 1.5))) points
  /\ (directionalFactor = 1 ->
      Forall (fun p => distance p (mkPoint 0 0) = Rabs baseRadiusPx) points).
Proof.
  intros Hrun.
  apply getCustomFireFrontPoints_inv in Hrun as [_ ->]. split.
  - apply fold_pushAt_Forall; [|constructor].
    intros a _. apply polarPoint_within.
  - intros ->. apply fold_pushAt_Forall; [|constructor].
    intros a _. rewrite polarPoint_radius. f_equal.
    replace ((1 - 1) * 1.5) with 0 by lra. ring.
Qed.

Lemma boundary_extent_witness :
  exists points,
    getCustomFireFrontPoints 630 10 90 2 None = Some points
    /\ Forall (fun p => distance p (mkPoint 0 0)
                        <= Rabs 10 * (1 + Rabs ((2 - 1) * 1.5))) points.
Proof.
  destruct (front_total 10 90 2) as [points Hrun].
  exists points. split; [exact Hrun|].
  exact (proj1 (boundary_extent 630 10 90 2 None points Hrun)).
Defined.

(** Folding the sampler over the angles number [a], [a + 1], ... keeps what
    was accepted and appends candidates in increasing order of their
    number. *)
Lemma fold_seq_ordered b w k d n : forall a accepted,
  exists extra,
    fold_left (pushAt b w k d) (map (fun i => INR i * 0.01) (seq a n))
      (map (fun i => polarPoint b w k (INR i * 0.01)) accepted)
    = map (fun i => polarPoint b w k (INR i * 0.01)) (accepted ++ extra)
    /\ StronglySorted lt extra
    /\ Forall (fun i => (a <= i < a + n)%nat) extra.
Proof.
  induction n as [|n IH]; intros a accepted.
  - exists []. rewrite app_nil_r. repeat split; constructor.
  - cbn [seq map fold_left]. unfold pushAt at 2.
    destruct (pushIfSpaced_cases
                (map (fun i => polarPoint b w k (INR i * 0.01)) accepted)
                (polarPoint b w k (INR a * 0.01)) d) as [-> | ->].
    + destruct (IH (S a) accepted) as [extra [Hfold [Hsorted Hrange]]].
      exists extra. split; [exact Hfold|]. split; [exact Hsorted|].
      eapply Forall_impl; [|exact Hrange]. cbv beta. intros i Hi. lia.
    + replace (map (fun i => polarPoint b w k (INR i * 0.01)) accepted
               ++ [polarPoint b w k (INR a * 0.01)])
        with (map (fun i => polarPoint b w k (INR i * 0.01))
                (accepted ++ [a]))
        by (rewrite map_app; reflexivity).
      destruct (IH (S a) (accepted ++ [a]))
        as [extra [Hfold [Hsorted Hrange]]].
      exists (a :: extra). split; [|split].
      * rewrite Hfold, <- app_assoc. reflexivity.
      * constructor; [exact Hsorted|].
        eapply Forall_impl; [|exact Hrange]. cbv beta. intros i Hi. lia.
      * constructor; [lia|].
        eapply Forall_impl; [|exact Hrange]. cbv beta. intros i Hi. lia.
Qed.

Lemma sampled_in_angular_order b w k d n :
  exists numbers,
    fold_left (pushAt b w k d) (sampleAngles (S n)) []
    = map (fun i => polarPoint b w k (INR i * 0.01)) (0%nat :: numbers)
    /\ StronglySorted lt (0%nat :: numbers)
    /\ Forall (fun i => (i < S n)%nat) (0%nat :: numbers).
Proof.
  rewrite sampleAngles_S. cbn [fold_left]. rewrite pushAt_first.
  destruct (fold_seq_ordered b w k d n 1 [0%nat])
    as [extra [Hfold [Hsorted Hrange]]].
  exists extra. split; [|split].
  - replace (polarPoint b w k 0) with (polarPoint b w k (INR 0 * 0.01))
      by (f_equal; simpl; ring).
    exact Hfold.
  - constructor; [exact Hsorted|].
    eapply Forall_impl; [|exact Hrange]. cbv beta. intros i Hi. lia.
  - constructor; [lia|].
    eapply Forall_impl; [|exact Hrange]. cbv beta. intros i Hi. lia.
Qed.

(** X2: the vertices of a returned boundary follow the angle: they are the
    candidates of a strictly increasing sequence of angle numbers below
    629 that starts with angle number 0. *)
Theorem boundary_in_angular_order (fuel : nat)
    (baseRadiusPx windAngleDeg directionalFactor : R)
    (minDistance : option R) (points : list Point) :
  getCustomFireFrontPoints fuel baseRadiusPx windAngleDeg directionalFactor
    minDistance = Some points ->
  exists numbers,
    points
    = map (fun i => polarPoint baseRadiusPx (windAngleDeg * PI / 180)
                      ((directionalFactor - 1) * 1.5) (INR i * 0.01))
        (0%nat :: numbers)
    /\ StronglySorted lt (0%nat :: numbers)
    /\ Forall (fun i => (i < 629)%nat) (0%nat :: numbers).
Proof.
  intros Hrun. apply getCustomFireFrontPoints_inv in Hrun as [_ ->].
  exact (sampled_in_angular_order baseRadiusPx (windAngleDeg * PI / 180)
           ((directionalFactor - 1) * 1.5) (minSpacingOf minDistance) 628).
Qed.

Lemma boundary_in_angular_order_witness :
  exists points numbers,
    getCustomFireFrontPoints 630 10 90 2 None = Some points
    /\ points
       = map (fun i => polarPoint 10 (90 * PI / 180) ((2 - 1) * 1.5)
                         (INR i * 0.01))
           (0%nat :: numbers).
Proof.
  destruct (front_total 10 90 2) as [points Hrun].
  destruct (boundary_in_angular_order 630 10 90 2 None points Hrun)
    as [numbers [Hpoints _]].
  exists points, numbers. split; [exact Hrun | exact Hpoints].
Defined.

(** A candidate too close to the single accepted point is dropped. *)
Lemma fold_pushAt_single b w k d p0 angles :
  (forall a, In a angles -> distance (polarPoint b w k a) p0 < d) ->
  fold_left (pushAt b w k d) angles [p0] = [p0].
Proof.
  induction angles as [|a angles IH]; intros Hclose; [reflexivity|].
  cbn [fold_left]. unfold pushAt at 2.
  pose proof (pushIfSpaced_snoc [] p0 (polarPoint b w k a) d) as Hpush.
  cbn [app] in Hpush. rewrite Hpush.
  destruct (Rge_dec (distance (polarPoint b w k a) p0) d) as [Hge | _].
  - specialize (Hclose a (or_introl eq_refl)). lra.
  - apply IH. intros a' Ha'. apply Hclose. now right.
Qed.

Lemma sampled_single_point b w k d n :
  2 * (Rabs b * (1 + Rabs k)) < d ->
  fold_left (pushAt b w k d) (sampleAngles (S n)) [] = [polarPoint b w k 0].
Proof.
  intros Hsmall. rewrite sampleAngles_S. cbn [fold_left].
  rewrite pushAt_first. apply fold_pushAt_single. intros a _.
  eapply Rle_lt_trans; [apply (distance_triangle _ _ (mkPoint 0 0))|].
  pose proof (polarPoint_within b w k a).
  pose proof (polarPoint_within b w k 0).
  lra.
Qed.

(** X3: a small fire front collapses to one vertex.  When twice the extent
    [|baseRadius| * (1 + |k|)] is below the minimum spacing, the boundary
    is the single candidate at angle 0; in particular so for base radius 0
    with any positive spacing. *)
Theorem boundary_single_point (fuel : nat)
    (baseRadiusPx windAngleDeg directionalFactor : R)
    (minDistance : option R) :
  (630 <= fuel)%nat ->
  2 * (Rabs baseRadiusPx * (1 + Rabs ((directionalFactor - 1) * 1.5)))
  < minSpacingOf minDistance ->
  getCustomFireFrontPoints fuel baseRadiusPx windAngleDeg directionalFactor
    minDistance
  = Some [polarPoint baseRadiusPx (windAngleDeg * PI / 180)
            ((directionalFactor - 1) * 1.5) 0].
Proof.
  intros Hfuel Hsmall.
  rewrite getCustomFireFrontPoints_fold by exact Hfuel.
  f_equal.
  exact (sampled_single_point baseRadiusPx (windAngleDeg * PI / 180)
           ((directionalFactor - 1) * 1.5) (minSpacingOf minDistance) 628
           Hsmall).
Qed.

Lemma boundary_single_point_witness :
  (630 <= 630)%nat /\
  2 * (Rabs 0 * (1 + Rabs ((2 - 1) * 1.5))) < minSpacingOf None /\
  getCustomFireFrontPoints 630 0 90 2 None
  = Some [polarPoint 0 (90 * PI / 180) ((2 - 1) * 1.5) 0].
Proof.
  assert (H : 2 * (Rabs 0 * (1 + Rabs ((2 - 1) * 1.5))) < minSpacingOf None)
    by (rewrite Rabs_R0; simpl; lra).
  split; [apply le_n|]. split; [exact H|].
  exact (boundary_single_point 630 0 90 2 None (le_n 630) H).
Defined.

Lemma fold_pushAt_all b w k d angles : forall points,
  d <= 0 ->
  fold_left (pushAt b w k d) angles points
  = points ++ map (polarPoint b w k) angles.
Proof.
  induction angles as [|a angles IH]; intros points Hd.
  - now rewrite app_nil_r.
  - cbn [fold_left map]. rewrite IH by exact Hd.
    unfold pushAt, pushIfSpaced.
    destruct (length points =? 0)%nat.
    + now rewrite <- app_assoc.
    + cbv zeta. destruct (Rge_dec _ _) as [_ | Hn].
      * now rewrite <- app_assoc.
      * exfalso. apply Hn.
        match goal with |- sqrt ?e >= d => pose proof (sqrt_pos e) end. lra.
Qed.

(** X4: with a minimum spacing of 0 or less nothing is filtered out: the
    boundary consists of all 629 candidates. *)
Theorem boundary_unfiltered (fuel : nat)
    (baseRadiusPx windAngleDeg directionalFactor minDistance : R) :
  (630 <= fuel)%nat ->
  minDistance <= 0 ->
  exists points,
    getCustomFireFrontPoints fuel baseRadiusPx windAngleDeg directionalFactor
      (Some minDistance) = Some points
    /\ points
       = map (polarPoint baseRadiusPx (windAngleDeg * PI / 180)
                ((directionalFactor - 1) * 1.5)) (sampleAngles 629)
    /\ length points = 629%nat.
Proof.
  intros Hfuel Hd. eexists. split; [|split].
  - apply getCustomFireFrontPoints_fold. exact Hfuel.
  - cbn [minSpacingOf]. rewrite fold_pushAt_all by exact Hd. reflexivity.
  - cbn [minSpacingOf]. rewrite fold_pushAt_all by exact Hd.
    cbn [app]. rewrite length_map. apply sampleAngles_length.
Qed.

Lemma boundary_unfiltered_witness :
  (630 <= 630)%nat /\ 0 <= 0 /\
  exists points,
    getCustomFireFrontPoints 630 10 90 2 (Some 0) = Some points
    /\ points
       = map (polarPoint 10 (90 * PI / 180) ((2 - 1) * 1.5))
           (sampleAngles 629)
    /\ length points = 629%nat.
Proof.
  split; [apply le_n|]. split; [apply Rle_refl|].
  exact (boundary_unfiltered 630 10 90 2 0 (le_n 630) (Rle_refl 0)).
Defined.

(** With a positive step some number of calls brings the angle above
    [2 * PI], all angles before it being at most [2 * PI]. *)
Lemma steps_to_leave step : 0 < step -> forall N theta,
  theta + INR N * step > 2 * PI ->
  exists n, (n <= N)%nat
    /\ (forall a, In a (visited n theta step) -> a <= 2 * PI)
    /\ theta + INR n * step > 2 * PI.
Proof.
  intros Hstep. induction N as [|N IH]; intros theta Hout.
  - exists 0%nat. split; [lia|]. split; [intros a []|exact Hout].
  - destruct (Rgt_dec theta (2 * PI)) as [Hgt | Hle].
    + exists 0%nat. split; [lia|]. split; [intros a []|]. simpl. lra.
    + destruct (IH (theta + step)) as [n [Hn [Hin Hleave]]].
      { rewrite S_INR in Hout. lra. }
      exists (S n). split; [lia|]. split.
      * intros a [<- | Ha]; [lra | now apply Hin].
      * rewrite S_INR. lra.
Qed.

Lemma visited_below n : forall theta step a,
  step <= 0 -> theta <= 2 * PI ->
  In a (visited n theta step) -> a <= 2 * PI.
Proof.
  induction n as [|n IH]; intros theta step a Hstep Htheta Hin;
    [destruct Hin|].
  destruct Hin as [<- | Hin]; [exact Htheta|].
  apply (IH (theta + step) step); [exact Hstep | lra | exact Hin].
Qed.

(** X5: the recursion of the sampler, whatever it is started with.  With a
    positive step it returns, on every stack that is deep enough, one and
    the same array; with a step of 0 or less and a start angle of at most
    [2 * PI] it exhausts every stack; started above [2 * PI] it returns the
    array it was given, untouched. *)
Theorem sampler_recursion_by_step
    (theta baseRadiusPx windAngleRad k stepIncrement minDistance : R)
    (points : list Point) :
  (0 < stepIncrement ->
   exists depth result,
     forall fuel, (depth <= fuel)%nat ->
       computeBoundaryPointsRecursively fuel theta baseRadiusPx windAngleRad
         k points stepIncrement minDistance = Some result)
  /\ (stepIncrement <= 0 -> theta <= 2 * PI ->
      forall fuel,
        computeBoundaryPointsRecursively fuel theta baseRadiusPx windAngleRad
          k points stepIncrement minDistance = None)
  /\ (theta > 2 * PI ->
      forall fuel,
        computeBoundaryPointsRecursively (S fuel) theta baseRadiusPx
          windAngleRad k points stepIncrement minDistance = Some points).
Proof.
  split; [|split].
  - intros Hstep.
    destruct (INR_archimed stepIncrement (2 * PI - theta) Hstep) as [N HN].
    destruct (steps_to_leave stepIncrement Hstep N theta)
      as [n [_ [Hin Hleave]]]; [lra|].
    exists (S n). eexists. intros fuel Hfuel.
    apply (compute_fold _ _ _ _ _ n); [lia | exact Hin | exact Hleave].
  - intros Hstep Htheta fuel. apply compute_starved.
    intros a Ha. now apply (visited_below fuel theta stepIncrement).
  - intros Hgt fuel. cbn [computeBoundaryPointsRecursively].
    destruct (Rgt_dec theta (2 * PI)) as [_ | Hn]; [reflexivity | lra].
Qed.

(** The signed radius along its direction determines a candidate, and the
    other way round. *)
Lemma polarPoint_signed_radius b w k theta r :
  polarPoint b w k theta = mkPoint (r * cos theta) (r * sin theta)
  <-> r = b * (1 + k * cos (theta - w)).
Proof.
  unfold polarPoint. cbv zeta. split.
  - intros Heq. injection Heq as Hx Hy.
    destruct (cos_sin_0_var theta) as [Hc | Hs].
    + apply Rmult_eq_reg_r in Hx; [now symmetry | exact Hc].
    + apply Rmult_eq_reg_r in Hy; [now symmetry | exact Hs].
  - intros ->. reflexivity.
Qed.

(** X6: for a positive base radius the candidate at angle [theta] is the
    point at signed radius [rho theta = baseRadius * (1 + k * cos (theta -
    windRad))] along the direction [theta], and no other signed radius
    gives it; [rho theta] is negative exactly when
    [k * cos (theta - windRad) < -1].  Over all real angles [rho] is
    nowhere negative (every candidate lies in the direction of its angle)
    exactly when the directional factor is between 1/3 and 5/3.  Above 5/3
    [rho] is negative at the angle opposite to the wind and positive at
    the wind angle; below 1/3 it is negative at the wind angle and
    positive opposite to it.  Between 1/3 and 5/3 every point of a
    returned boundary is a sampled candidate whose signed radius is not
    negative. *)
Theorem candidates_face_outward
    (baseRadiusPx windAngleDeg directionalFactor : R) :
  0 < baseRadiusPx ->
  let w := windAngleDeg * PI / 180 in
  let k := (directionalFactor - 1) * 1.5 in
  let rho theta := baseRadiusPx * (1 + k * cos (theta - w)) in
  (forall theta r,
     polarPoint baseRadiusPx w k theta
     = mkPoint (r * cos theta) (r * sin theta)
     <-> r = rho theta)
  /\ (forall theta, rho theta < 0 <-> k * cos (theta - w) < -1)
  /\ ((forall theta, 0 <= rho theta) <-> 1 / 3 <= directionalFactor <= 5 / 3)
  /\ ((forall theta, exists r,
         0 <= r
         /\ polarPoint baseRadiusPx w k theta
            = mkPoint (r * cos theta) (r * sin theta))
      <-> 1 / 3 <= directionalFactor <= 5 / 3)
  /\ (5 / 3 < directionalFactor -> rho (w + PI) < 0 /\ 0 < rho w)
  /\ (directionalFactor < 1 / 3 -> rho w < 0 /\ 0 < rho (w + PI))
  /\ (1 / 3 <= directionalFactor <= 5 / 3 ->
      forall fuel minDistance points,
        getCustomFireFrontPoints fuel baseRadiusPx windAngleDeg
          directionalFactor minDistance = Some points ->
        Forall (fun p => exists i : nat,
                  (i < 629)%nat
                  /\ 0 <= rho (INR i * 0.01)
                  /\ p = mkPoint (rho (INR i * 0.01) * cos (INR i * 0.01))
                           (rho (INR i * 0.01) * sin (INR i * 0.01)))
               points).
Proof.
  intros Hb w k rho.
  assert (Hk : -1 <= k <= 1 <-> 1 / 3 <= directionalFactor <= 5 / 3)
    by (unfold k; split; intros [? ?]; split; lra).
  assert (Hat_w : rho w = baseRadiusPx * (1 + k)).
  { unfold rho. replace (w - w) with 0 by ring. rewrite cos_0. ring. }
  assert (Hat_opp : rho (w + PI) = baseRadiusPx * (1 - k)).
  { unfold rho. replace (w + PI - w) with PI by ring. rewrite cos_PI. ring. }
  assert (Hall : (forall theta, 0 <= rho theta) <-> -1 <= k <= 1).
  { split.
    - intros Hrho. pose proof (Hrho w) as H1. pose proof (Hrho (w + PI)) as H2.
      rewrite Hat_w in H1. rewrite Hat_opp in H2. split; nra.
    - intros [Hlo Hhi] theta. unfold rho.
      pose proof (COS_bound (theta - w)) as [Hc1 Hc2].
      apply Rmult_le_pos; [lra|]. nra. }
  split; [|split; [|split; [|split; [|split; [|split]]]]].
  - intros theta r. apply polarPoint_signed_radius.
  - intros theta. unfold rho. split; intros H; nra.
  - rewrite <- Hk. exact Hall.
  - rewrite <- Hk, <- Hall. split.
    + intros Hex theta. destruct (Hex theta) as [r [Hr Heq]].
      apply polarPoint_signed_radius in Heq. fold (rho theta) in Heq.
      now rewrite <- Heq.
    + intros Hrho theta. exists (rho theta). split; [apply Hrho|].
      apply polarPoint_signed_radius. reflexivity.
  - intros Hf. rewrite Hat_w, Hat_opp.
    assert (1 < k) by (unfold k; lra). split; nra.
  - intros Hf. rewrite Hat_w, Hat_opp.
    assert (k < -1) by (unfold k; lra). split; nra.
  - intros Hf fuel minDistance points Hrun.
    apply getCustomFireFrontPoints_inv in Hrun as [_ ->].
    apply fold_pushAt_Forall; [|constructor].
    intros a Ha. apply sampleAngles_in in Ha as [i [Hi ->]].
    exists i. split; [exact Hi|]. split; [|reflexivity].
    apply Hall. now apply Hk.
Qed.

Lemma candidates_face_outward_witness :
  0 < 10 /\
  ((forall theta, 0 <= 10 * (1 + (1.5 - 1) * 1.5 * cos (theta - 90 * PI / 180)))
   <-> 1 / 3 <= 1.5 <= 5 / 3).
Proof.
  assert (H : 0 < 10) by lra.
  split; [exact H|].
  exact (proj1 (proj2 (proj2 (candidates_face_outward 10 90 1.5 H)))).
Defined.

(** ** The spread rate: how it moves with its inputs *)

(** X7: the rate never falls when the temperature rises (humidity below
    200 percent); and above 0 degrees Celsius it never falls when the wind
    rises and never rises when the humidity does. *)
Theorem rate_monotone (v : Variant) (t t' w w' d h h' : R)
    (precip : option R) (slope : R) (landCoverTag : string) :
  (h < 200 -> t <= t' ->
   computeSpreadRate v (mkCurrent t w d h precip) slope landCoverTag
   <= computeSpreadRate v (mkCurrent t' w d h precip) slope landCoverTag)
  /\ (0 < t -> h < 200 -> w <= w' ->
      computeSpreadRate v (mkCurrent t w d h precip) slope landCoverTag
      <= computeSpreadRate v (mkCurrent t w' d h precip) slope landCoverTag)
  /\ (0 < t -> h <= h' ->
      computeSpreadRate v (mkCurrent t w d h' precip) slope landCoverTag
      <= computeSpreadRate v (mkCurrent t w d h precip) slope landCoverTag).
Proof.
  destruct (computeSpreadRate_split v precip slope landCoverTag)
    as [rest [Hrest Heq]].
  rewrite !Heq.
  pose proof (exp_pos (0.05 * (w / 3.6))) as Hw.
  pose proof (exp_pos (0.05 * (w' / 3.6))) as Hw'.
  split; [|split].
  - intros Hh Ht.
    apply Rmult_le_compat_r; [lra|].
    apply Rmult_le_compat_r; [lra|].
    apply Rmult_le_compat_r; lra.
  - intros Ht Hh Hww.
    assert (Hexp : exp (0.05 * (w / 3.6)) <= exp (0.05 * (w' / 3.6))).
    { destruct Hww as [Hlt | ->]; [|lra].
      left. apply exp_increasing. lra. }
    apply Rmult_le_compat_r; [lra|].
    apply Rmult_le_compat_l; [|exact Hexp].
    apply Rmult_le_pos; lra.
  - intros Ht Hhh.
    apply Rmult_le_compat_r; [lra|].
    apply Rmult_le_compat_r; [lra|].
    apply Rmult_le_compat_l; lra.
Qed.

(** X8: rain lowers the rate by the factor [1 - min(0.5, 0.2 * mm)], which
    is never below one half: from 2.5 mm on it is one half whatever the
    amount, and without rain (or with no rain figure at all) it is 1. *)
Theorem rain_at_most_halves (v : Variant) (t w d h mm slope : R)
    (landCoverTag : string) :
  let dry := computeSpreadRate v (mkCurrent t w d h None) slope landCoverTag in
  let wet :=
    computeSpreadRate v (mkCurrent t w d h (Some mm)) slope landCoverTag in
  let factor := 1 - Rmin 0.5 (mm * 0.2) in
  wet = dry * factor
  /\ 0.5 <= factor
  /\ (0 <= mm -> factor <= 1)
  /\ (2.5 <= mm -> wet = dry * 0.5)
  /\ (mm = 0 -> wet = dry).
Proof.
  intros dry wet factor.
  assert (Hwet : wet = dry * factor).
  { unfold wet, dry, factor. rewrite !computeSpreadRate_spec.
    unfold spreadRate, sampleOf.
    cbn [temperature_C windSpeed_ms humidity_pct precipitation_mm slope_pct
         fuelDensity landCover temp_c wind_kph humidity precip_mm].
    replace (Rmin 0.5 (0 * 0.2)) with 0
      by (unfold Rmin; destruct (Rle_dec 0.5 (0 * 0.2)); lra).
    real_field. }
  split; [exact Hwet|]. unfold factor in *. unfold Rmin in *.
  destruct (Rle_dec 0.5 (mm * 0.2)) as [Hle | Hgt].
  - split; [lra|]. split; [intros _; lra|]. split.
    + intros _. rewrite Hwet. f_equal. lra.
    + intros Hmm. exfalso. lra.
  - split; [lra|]. split; [intros Hmm; lra|]. split.
    + intros Hmm. exfalso. lra.
    + intros Hmm. rewrite Hwet. subst mm. lra.
Qed.

(** X9: the two variants agree on the rate except on forest and wood,
    where the variant counts the fuel as dense and its rate is 1.2 times
    that of [script.js], whose fuel class is sparse everywhere. *)
Theorem variants_differ_on_woodland (cur : Current) (slope : R)
    (landCoverTag : string) :
  computeSpreadRate script_variant cur slope landCoverTag
  = computeSpreadRate script_js cur slope landCoverTag
    * (if (landCoverTag =? "forest")%string || (landCoverTag =? "wood")%string
       then 1.2 else 1).
Proof.
  rewrite !computeSpreadRate_spec. unfold spreadRate, sampleOf, fuelType.
  cbn [temperature_C windSpeed_ms humidity_pct precipitation_mm slope_pct
       fuelDensity landCover woodlandFuelType script_js script_variant].
  destruct ((landCoverTag =? "forest")%string
            || (landCoverTag =? "wood")%string).
  - change (fuelDensityOf "dense") with dense.
    change (fuelDensityOf "sparse") with sparse.
    cbn [fuelModifier]. real_field.
  - change (fuelDensityOf "sparse") with sparse.
    cbn [fuelModifier]. real_field.
Qed.

(** X10: what the weather callback writes.  The wind direction is passed
    through, the directional factor is [exp (0.1 * wind speed in m/s)]: it
    is at least 1 exactly when the wind speed is not negative, and at most
    5/3 (the bound up to which all candidates face outward) exactly when
    the wind is at most [36 * ln (5/3)] km/h. *)
Theorem weather_sets_wind (cur : Current) (s : State) :
  let s' := weatherArrived (Some cur) s in
  globalWindDegree s' = wind_degree cur
  /\ globalDirectionalFactor s' = exp (0.1 * (wind_kph cur / 3.6))
  /\ effectiveSpreadRate s' = effectiveSpreadRate s
  /\ (1 <= globalDirectionalFactor s' <-> 0 <= wind_kph cur)
  /\ (globalDirectionalFactor s' <= 5 / 3
      <-> wind_kph cur <= 36 * ln (5 / 3)).
Proof.
  intros s'. unfold s', weatherArrived, computeDirectionalFactor.
  cbn [globalWindDegree globalDirectionalFactor effectiveSpreadRate withWind].
  repeat (split; [reflexivity|]).
  set (e := 0.1 * (wind_kph cur / 3.6)).
  assert (He0 : 0 <= e <-> 0 <= wind_kph cur) by (unfold e; split; lra).
  assert (Hel : e <= ln (5 / 3) <-> wind_kph cur <= 36 * ln (5 / 3))
    by (unfold e; split; lra).
  rewrite <- He0, <- Hel. clear He0 Hel. split; split.
  - intros H. destruct (Rle_dec 0 e) as [Hle | Hn]; [exact Hle|].
    exfalso. assert (Hlt : e < 0) by lra.
    apply exp_increasing in Hlt. rewrite exp_0 in Hlt. lra.
  - intros [Hlt | <-]; [|rewrite exp_0; lra].
    apply exp_increasing in Hlt. rewrite exp_0 in Hlt. lra.
  - intros H. destruct (Rle_dec e (ln (5 / 3))) as [Hle | Hn]; [exact Hle|].
    exfalso. assert (Hlt : ln (5 / 3) < e) by lra.
    apply exp_increasing in Hlt. rewrite exp_ln in Hlt by lra. lra.
  - intros [Hlt | ->]; [|rewrite exp_ln; lra].
    apply exp_increasing in Hlt. rewrite exp_ln in Hlt by lra. lra.
Qed.

(** ** Great-circle distance *)

Import Geodesy.

Lemma sin_half_squared t : sin (t / 2) * sin (t / 2) = (1 - cos t) / 2.
Proof.
  pose proof (cos_2a_sin (t / 2)) as H.
  replace (2 * (t / 2)) with t in H by field. lra.
Qed.

Lemma haversine_central lat1 lng1 lat2 lng2 :
  haversine lat1 lng1 lat2 lng2
  = (1 - cosCentralAngle lat1 lng1 lat2 lng2) / 2.
Proof.
  unfold haversine, cosCentralAngle. cbv zeta.
  rewrite (Rmult_assoc _ (sin _) (sin _)).
  rewrite !sin_half_squared.
  replace ((lat2 - lat1) * PI / 180)
    with (lat2 * PI / 180 - lat1 * PI / 180) by field.
  rewrite cos_minus. field.
Qed.

Lemma cosCentralAngle_bound lat1 lng1 lat2 lng2 :
  -1 <= cosCentralAngle lat1 lng1 lat2 lng2 <= 1.
Proof.
  unfold cosCentralAngle. cbv zeta.
  set (s1 := sin (lat1 * PI / 180)). set (c1 := cos (lat1 * PI / 180)).
  set (s2 := sin (lat2 * PI / 180)). set (c2 := cos (lat2 * PI / 180)).
  set (t := cos ((lng2 - lng1) * PI / 180)).
  assert (H1 : s1 * s1 + c1 * c1 = 1)
    by (pose proof (sin2_cos2 (lat1 * PI / 180)) as H; unfold Rsqr in H;
        exact H).
  assert (H2 : s2 * s2 + c2 * c2 = 1)
    by (pose proof (sin2_cos2 (lat2 * PI / 180)) as H; unfold Rsqr in H;
        exact H).
  assert (Ht : -1 <= t <= 1) by apply COS_bound.
  assert (Hc : 0 <= c2 * c2 * (1 - t * t)).
  { apply Rmult_le_pos; [nra | nra]. }
  split.
  - pose proof (Rle_0_sqr (s1 + s2)) as Ha.
    pose proof (Rle_0_sqr (c1 + c2 * t)) as Hb. unfold Rsqr in Ha, Hb.
    lra.
  - pose proof (Rle_0_sqr (s1 - s2)) as Ha.
    pose proof (Rle_0_sqr (c1 - c2 * t)) as Hb. unfold Rsqr in Ha, Hb.
    lra.
Qed.

Lemma haversine_range lat1 lng1 lat2 lng2 :
  0 <= haversine lat1 lng1 lat2 lng2 <= 1.
Proof.
  rewrite haversine_central.
  pose proof (cosCentralAngle_bound lat1 lng1 lat2 lng2). lra.
Qed.

(** [atan2] gives back an angle of the first quadrant from its sine and
    cosine. *)
Lemma atan2_first_quadrant h :
  0 <= h <= PI / 2 -> atan2 (sin h) (cos h) = h.
Proof.
  intros [Hlo Hhi]. unfold atan2.
  destruct (Rlt_dec 0 (cos h)) as [Hpos | Hnpos].
  - assert (Hlt : h < PI / 2).
    { destruct Hhi as [Hlt | ->]; [exact Hlt|].
      rewrite cos_PI2 in Hpos. lra. }
    change (sin h / cos h) with (tan h). apply atan_tan.
    pose proof PI_RGT_0. lra.
  - assert (Heq : h = PI / 2).
    { destruct Hhi as [Hlt | Heq]; [|exact Heq].
      exfalso. apply Hnpos. apply cos_gt_0; pose proof PI_RGT_0; lra. }
    subst h. rewrite cos_PI2, sin_PI2.
    destruct (Rlt_dec 0 0) as [H0 | _]; [lra|].
    destruct (Rlt_dec 0 1) as [_ | H1]; [reflexivity | lra].
Qed.

Lemma computeDistance_central lat1 lng1 lat2 lng2 :
  computeDistance lat1 lng1 lat2 lng2
  = 6371000 * acos (cosCentralAngle lat1 lng1 lat2 lng2).
Proof.
  unfold computeDistance. cbv zeta.
  fold (haversine lat1 lng1 lat2 lng2).
  pose proof (cosCentralAngle_bound lat1 lng1 lat2 lng2) as Hu.
  set (u := cosCentralAngle lat1 lng1 lat2 lng2) in *.
  pose proof (acos_bound u) as Hacos.
  pose proof (cos_acos u Hu) as Hcos.
  set (theta := acos u) in *.
  assert (Hh : 0 <= theta / 2 <= PI / 2) by lra.
  assert (Hsin : 0 <= sin (theta / 2))
    by (apply sin_ge_0; pose proof PI_RGT_0; lra).
  assert (Hcosh : 0 <= cos (theta / 2))
    by (apply cos_ge_0; pose proof PI_RGT_0; lra).
  assert (Ha : haversine lat1 lng1 lat2 lng2 = (1 - u) / 2)
    by apply haversine_central.
  assert (Hs2 : sin (theta / 2) * sin (theta / 2) = (1 - u) / 2)
    by (rewrite sin_half_squared, Hcos; reflexivity).
  assert (Hc2 : cos (theta / 2) * cos (theta / 2) = 1 - (1 - u) / 2).
  { pose proof (sin2_cos2 (theta / 2)) as H. unfold Rsqr in H. lra. }
  rewrite Ha.
  rewrite (sqrt_lem_1 ((1 - u) / 2) (sin (theta / 2))); [|lra|exact Hsin|exact Hs2].
  rewrite (sqrt_lem_1 (1 - (1 - u) / 2) (cos (theta / 2)));
    [|lra|exact Hcosh|exact Hc2].
  rewrite atan2_first_quadrant by exact Hh. f_equal. field.
Qed.

(** X11: for two points with latitudes between -90 and 90 degrees that
    are at most a quarter of a great circle apart (the cosine of the angle
    between them, seen from the centre of the sphere, is not negative),
    [computeDistance] is the earth radius, 6371000 m, times that angle; it
    lies between 0 and a quarter of the circumference, and the haversine
    term lies between 0 and 1/2, so both square roots are taken of
    non-negative numbers. *)
Theorem computeDistance_great_circle (lat1 lng1 lat2 lng2 : R) :
  -90 <= lat1 <= 90 ->
  -90 <= lat2 <= 90 ->
  0 <= cosCentralAngle lat1 lng1 lat2 lng2 ->
  computeDistance lat1 lng1 lat2 lng2
  = 6371000 * acos (cosCentralAngle lat1 lng1 lat2 lng2)
  /\ 0 <= computeDistance lat1 lng1 lat2 lng2 <= 6371000 * (PI / 2)
  /\ 0 <= haversine lat1 lng1 lat2 lng2 <= 1 / 2
  /\ 0 <= 1 - haversine lat1 lng1 lat2 lng2.
Proof.
  intros _ _ Hnear.
  pose proof (cosCentralAngle_bound lat1 lng1 lat2 lng2) as Hu.
  split; [apply computeDistance_central|]. split; [|split].
  - rewrite computeDistance_central.
    pose proof (acos_bound (cosCentralAngle lat1 lng1 lat2 lng2)) as Hacos.
    pose proof (cos_acos (cosCentralAngle lat1 lng1 lat2 lng2) Hu) as Hcos.
    assert (Hquarter : acos (cosCentralAngle lat1 lng1 lat2 lng2) <= PI / 2).
    { destruct (Rle_dec (acos (cosCentralAngle lat1 lng1 lat2 lng2)) (PI / 2))
        as [Hle | Hgt]; [exact Hle|].
      exfalso.
      assert (Hneg : cos (acos (cosCentralAngle lat1 lng1 lat2 lng2)) < 0)
        by (apply cos_lt_0; pose proof PI_RGT_0; lra).
      lra. }
    lra.
  - rewrite haversine_central. lra.
  - rewrite haversine_central. lra.
Qed.

Lemma computeDistance_great_circle_witness :
  -90 <= 0 <= 90 /\ -90 <= 0 <= 90 /\
  0 <= cosCentralAngle 0 0 0 90 /\
  computeDistance 0 0 0 90 = 6371000 * acos (cosCentralAngle 0 0 0 90).
Proof.
  assert (Hlat : -90 <= 0 <= 90) by lra.
  assert (Hnear : 0 <= cosCentralAngle 0 0 0 90).
  { unfold cosCentralAngle. cbv zeta.
    replace (0 * PI / 180) with 0 by lra.
    replace ((90 - 0) * PI / 180) with (PI / 2) by lra.
    rewrite sin_0, cos_0, cos_PI2. lra. }
  split; [exact Hlat|]. split; [exact Hlat|]. split; [exact Hnear|].
  exact (proj1 (computeDistance_great_circle 0 0 0 90 Hlat Hlat Hnear)).
Defined.

Lemma cosCentralAngle_sym lat1 lng1 lat2 lng2 :
  cosCentralAngle lat1 lng1 lat2 lng2 = cosCentralAngle lat2 lng2 lat1 lng1.
Proof.
  unfold cosCentralAngle. cbv zeta.
  replace ((lng1 - lng2) * PI / 180) with (- ((lng2 - lng1) * PI / 180))
    by field.
  rewrite cos_neg. ring.
Qed.

(** X12: [computeDistance] does not depend on the order of the two points,
    and the distance from a point to itself is 0. *)
Theorem computeDistance_symmetric (lat1 lng1 lat2 lng2 : R) :
  computeDistance lat1 lng1 lat2 lng2 = computeDistance lat2 lng2 lat1 lng1
  /\ computeDistance lat1 lng1 lat1 lng1 = 0.
Proof.
  rewrite !computeDistance_central. split.
  - now rewrite cosCentralAngle_sym.
  - unfold cosCentralAngle. cbv zeta.
    replace ((lng1 - lng1) * PI / 180) with 0 by field.
    rewrite cos_0.
    pose proof (sin2_cos2 (lat1 * PI / 180)) as H. unfold Rsqr in H.
    replace (sin (lat1 * PI / 180) * sin (lat1 * PI / 180)
             + cos (lat1 * PI / 180) * cos (lat1 * PI / 180) * 1)
      with 1 by lra.
    rewrite acos_1. ring.
Qed.

(** ** Slope and land cover *)

Import Services.

(** X13: the slope [getSlope] computes is never negative and does not
    depend on which of the two elevations is the higher one, so the slope
    modifier [exp (slope / 100)] it leads to is at least 1: the looked-up
    slope multiplies the rate on flat ground by a factor of 1 or more, and
    by exactly 1 when the two elevations are equal. *)
Theorem slope_never_slows (v : Variant) (cur : Current)
    (lat lng elev1 elev2 : R) (landCoverTag : string) :
  let slope := getSlope lat lng elev1 elev2 in
  0 <= slope
  /\ getSlope lat lng elev2 elev1 = slope
  /\ computeSpreadRate v cur slope landCoverTag
     = computeSpreadRate v cur 0 landCoverTag * exp (slope / 100)
  /\ 1 <= exp (slope / 100)
  /\ (elev1 = elev2 ->
      computeSpreadRate v cur slope landCoverTag
      = computeSpreadRate v cur 0 landCoverTag).
Proof.
  intros slope.
  assert (Hpos : 0 <= slope) by (unfold slope, getSlope; apply Rabs_pos).
  assert (Hrate : computeSpreadRate v cur slope landCoverTag
                  = computeSpreadRate v cur 0 landCoverTag * exp (slope / 100)).
  { rewrite !computeSpreadRate_spec. unfold spreadRate, sampleOf.
    cbn [temperature_C windSpeed_ms humidity_pct precipitation_mm slope_pct
         fuelDensity landCover].
    replace (0 / 100) with 0 by lra. rewrite exp_0. real_field. }
  split; [exact Hpos|]. split; [|split; [exact Hrate|split]].
  - unfold slope, getSlope. cbv zeta. rewrite <- Rabs_Ropp. f_equal.
    unfold Rdiv. ring.
  - pose proof (exp_ineq1_le (slope / 100)). lra.
  - intros ->. rewrite Hrate.
    assert (Hzero : slope = 0).
    { unfold slope, getSlope. cbv zeta.
      replace (elev2 - elev2) with 0 by ring.
      unfold Rdiv. rewrite !Rmult_0_l. apply Rabs_R0. }
    rewrite Hzero. replace (0 / 100) with 0 by lra. rewrite exp_0. ring.
Qed.

(** X14: [getLandCover] looks at the first element of the answer only; it
    answers ["unknown"] when there is no element or when the first one has
    no (or an empty) land-use tag, and never the empty string; for
    ["unknown"] both the land-cover modifier and the fuel modifier are 1,
    so the rate is the product of the weather and slope modifiers alone. *)
Theorem getLandCover_first_element (first : LandElement)
    (rest : list LandElement) (v : Variant) (cur : Current) (slope : R) :
  getLandCover (Some (first :: rest)) = getLandCover (Some [first])
  /\ getLandCover (Some (first :: rest)) <> EmptyString
  /\ getLandCover None = "unknown"%string
  /\ getLandCover (Some []) = "unknown"%string
  /\ (landTags first = None \/ landTags first = Some None
      \/ landTags first = Some (Some EmptyString) ->
      getLandCover (Some (first :: rest)) = "unknown"%string)
  /\ computeSpreadRate v cur slope "unknown"
     = exp (0.05 * (wind_kph cur / 3.6)) * (1 + (temp_c cur - 20) * 0.05)
       * exp (slope / 100) * (1 - humidity cur / 100 * 0.5)
       * (1 - Rmin 0.5 (match precip_mm cur with Some p => p | None => 0 end
                        * 0.2)).
Proof.
  split; [reflexivity|]. split; [|split; [reflexivity|split; [reflexivity|split]]].
  - unfold getLandCover. destruct (landTags first) as [[l|]|];
      try discriminate.
    destruct l; cbn [truthyString]; discriminate.
  - unfold getLandCover. intros [-> | [-> | ->]]; reflexivity.
  - rewrite computeSpreadRate_spec. unfold spreadRate, sampleOf.
    cbn [temperature_C windSpeed_ms humidity_pct precipitation_mm slope_pct
         fuelDensity landCover].
    change (landCoverClassOf "unknown") with other.
    change (fuelType v "unknown") with "sparse"%string.
    change (fuelDensityOf "sparse") with sparse.
    cbn [fuelModifier landCoverModifier]. real_field.
Qed.

(** ** Fire stations and hydrants *)

(** One turn of the loop with an ignition point: the element's marker is
    added, and a located fire station that is strictly closer than the
    nearest one so far takes its place. *)
Lemma scanElement_with_ignition start e sc :
  scanElement (Some start) e sc
  = Some (mkScan (markers sc ++ markerOf e)
            (if locatedStation e && closer (distanceTo start e) (nearestDistance sc)
             then Some e else nearestStation sc)
            (if locatedStation e && closer (distanceTo start e) (nearestDistance sc)
             then Some (distanceTo start e) else nearestDistance sc)).
Proof.
  unfold scanElement, markerOf, locatedStation, locatedHydrant, distanceTo,
    positionOf.
  destruct (truthyNumber (elementLat e)), (truthyNumber (elementLon e));
    cbn [negb orb andb]; try (rewrite app_nil_r; now destruct sc).
  destruct (hasAmenity e "fire_station"); cbn [negb andb].
  - cbv zeta.
    destruct (closer _ (nearestDistance sc)); reflexivity.
  - destruct (hasEmergency e "fire_hydrant"); [reflexivity|].
    rewrite app_nil_r. now destruct sc.
Qed.

Lemma scanElements_with_ignition start elements : forall seen sc,
  nearestAmong start seen sc ->
  exists sc',
    scanElements (Some start) elements sc = (sc', true)
    /\ nearestAmong start (seen ++ elements) sc'
    /\ markers sc' = markers sc ++ flat_map markerOf elements.
Proof.
  induction elements as [|e elements IH]; intros seen sc Hinv.
  - exists sc. cbn [scanElements flat_map]. rewrite !app_nil_r.
    split; [reflexivity|]. split; [exact Hinv | reflexivity].
  - cbn [scanElements]. rewrite scanElement_with_ignition.
    set (sc1 := mkScan _ _ _).
    destruct (IH (seen ++ [e]) sc1) as [sc' [Hrun [Hinv' Hmarkers]]].
    + unfold nearestAmong in *. unfold sc1.
      cbn [nearestStation nearestDistance].
      destruct (locatedStation e) eqn:Hloc; cbn [andb].
      * unfold closer.
        destruct (nearestStation sc) as [st|] eqn:Hst,
                 (nearestDistance sc) as [d|] eqn:Hd; try contradiction.
        -- destruct Hinv as [Hin [Hlst [Hdist Hmin]]].
           destruct (Rlt_dec (distanceTo start e) d) as [Hlt | Hge].
           ++ split; [apply in_or_app; right; now left|].
              split; [exact Hloc|]. split; [reflexivity|].
              intros e' He' Hloc'. apply in_app_or in He' as [He' | [<- | []]].
              ** specialize (Hmin e' He' Hloc'). lra.
              ** lra.
           ++ split; [apply in_or_app; now left|].
              split; [exact Hlst|]. split; [exact Hdist|].
              intros e' He' Hloc'. apply in_app_or in He' as [He' | [<- | []]].
              ** now apply Hmin.
              ** lra.
        -- split; [apply in_or_app; right; now left|].
           split; [exact Hloc|]. split; [reflexivity|].
           intros e' He' Hloc'. apply in_app_or in He' as [He' | [<- | []]].
           ++ rewrite (Hinv e' He') in Hloc'. discriminate.
           ++ lra.
      * destruct (nearestStation sc) as [st|] eqn:Hst,
                 (nearestDistance sc) as [d|] eqn:Hd; try contradiction.
        -- destruct Hinv as [Hin [Hlst [Hdist Hmin]]].
           split; [apply in_or_app; now left|].
           split; [exact Hlst|]. split; [exact Hdist|].
           intros e' He' Hloc'. apply in_app_or in He' as [He' | [<- | []]].
           ++ now apply Hmin.
           ++ rewrite Hloc in Hloc'. discriminate.
        -- intros e' He'. apply in_app_or in He' as [He' | [<- | []]].
           ++ now apply Hinv.
           ++ exact Hloc.
    + exists sc'. split; [exact Hrun|]. split.
      * now rewrite <- app_assoc in Hinv'.
      * rewrite Hmarkers. unfold sc1. cbn [markers flat_map].
        now rewrite app_assoc.
Qed.

(** X15: the answer to the resource query, while an ignition point is
    set.  Every fire station and every hydrant with coordinates gets a
    marker, in the order of the answer; an element whose latitude or
    longitude is 0 or missing gets none.  If the answer holds a fire
    station with coordinates, the label names one that no other is closer
    to the ignition point than; if it holds none, the label stays as it
    is. *)
Theorem resources_nearest_station
    (elements : list Element) (s : State) (start : LatLng) :
  fireStartLatLng s = Some start ->
  let s' := Page.resourcesArrived (Some elements) s in
  fireResourceMarkers s'
  = fireResourceMarkers s ++ map snd (flat_map markerOf elements)
  /\ (forall e, elementLat e = Some 0 \/ elementLat e = None
                \/ elementLon e = Some 0 \/ elementLon e = None ->
                markerOf e = [])
  /\ ((forall e, In e elements -> locatedStation e = false)
      /\ panel s' = panel s
      \/ exists station,
           In station elements
           /\ locatedStation station = true
           /\ (forall e, In e elements -> locatedStation e = true ->
                 distanceTo start station <= distanceTo start e)
           /\ nearestFireStation (panel s')
              = ("Nearest fire station: " ++ stationName station)%string).
Proof.
  intros Hfire s'. split; [|split].
  - unfold s', Page.resourcesArrived. destruct elements as [|e0 rest].
    + cbn [flat_map map]. now rewrite app_nil_r.
    + rewrite Hfire.
      destruct (scanElements_with_ignition start (e0 :: rest) []
                  (mkScan [] None None)) as [sc [Hrun [_ Hmarkers]]].
      { intros e []. }
      rewrite Hrun. cbn [markers app] in Hmarkers. rewrite Hmarkers.
      destruct (nearestStation sc); reflexivity.
  - intros e He. unfold markerOf, locatedStation, locatedHydrant.
    assert (Hfalse : truthyNumber (elementLat e) && truthyNumber (elementLon e)
                     = false).
    { unfold truthyNumber.
      destruct He as [-> | [-> | [-> | ->]]];
        try (destruct (Req_dec_T 0 0); [|contradiction]);
        try reflexivity; apply andb_false_r. }
    rewrite Hfalse. reflexivity.
  - unfold s', Page.resourcesArrived. destruct elements as [|e0 rest].
    + left. split; [intros e []|reflexivity].
    + rewrite Hfire.
      destruct (scanElements_with_ignition start (e0 :: rest) []
                  (mkScan [] None None)) as [sc [Hrun [Hinv _]]].
      { intros e []. }
      rewrite Hrun. cbn [app] in Hinv. unfold nearestAmong in Hinv.
      destruct (nearestStation sc) as [st|], (nearestDistance sc) as [d|];
        try contradiction.
      * right. destruct Hinv as [Hin [Hloc [Hd Hmin]]]. exists st.
        split; [exact Hin|]. split; [exact Hloc|]. split.
        -- intros e He Hle. rewrite <- Hd. now apply Hmin.
        -- reflexivity.
      * left. split; [exact Hinv | reflexivity].
Qed.

Lemma resources_nearest_station_witness :
  fireStartLatLng ignitedState = Some (mkLatLng 0 0) /\
  fireResourceMarkers
    (Page.resourcesArrived
       (Some [mkElement (Some 1) (Some 1)
                (Some (mkResourceTags (Some "fire_station"%string) None None))])
       ignitedState)
  = fireResourceMarkers ignitedState
    ++ map snd
         (flat_map markerOf
            [mkElement (Some 1) (Some 1)
               (Some (mkResourceTags (Some "fire_station"%string) None None))]).
Proof.
  split; [reflexivity|].
  exact (proj1 (resources_nearest_station
                  [mkElement (Some 1) (Some 1)
                     (Some (mkResourceTags (Some "fire_station"%string)
                              None None))]
                  ignitedState (mkLatLng 0 0) eq_refl)).
Defined.

Lemma scanElement_without_ignition e sc :
  scanElement None e sc
  = if locatedStation e then None
    else Some (mkScan (markers sc ++ markerOf e)
                 (nearestStation sc) (nearestDistance sc)).
Proof.
  unfold scanElement, markerOf, locatedStation, locatedHydrant, positionOf.
  destruct (truthyNumber (elementLat e)), (truthyNumber (elementLon e));
    cbn [negb orb andb]; try (rewrite app_nil_r; now destruct sc).
  destruct (hasAmenity e "fire_station"); cbn [negb andb]; [reflexivity|].
  destruct (hasEmergency e "fire_hydrant"); [reflexivity|].
  rewrite app_nil_r. now destruct sc.
Qed.

Lemma scanElements_without_ignition elements : forall sc,
  exists leading trailing sc' finished,
    scanElements None elements sc = (sc', finished)
    /\ elements = leading ++ trailing
    /\ (forall e, In e leading -> locatedStation e = false)
    /\ markers sc' = markers sc ++ flat_map markerOf leading
    /\ nearestStation sc' = nearestStation sc
    /\ (finished = true /\ trailing = []
        \/ finished = false
           /\ exists station rest,
                trailing = station :: rest /\ locatedStation station = true).
Proof.
  induction elements as [|e elements IH]; intros sc.
  - exists [], [], sc, true. cbn [scanElements flat_map app].
    rewrite app_nil_r. repeat split; auto. intros e [].
  - cbn [scanElements]. rewrite scanElement_without_ignition.
    destruct (locatedStation e) eqn:Hloc.
    + exists [], (e :: elements), sc, false. cbn [flat_map app].
      rewrite app_nil_r. repeat split; auto; [intros e' []|].
      right. split; [reflexivity|]. now exists e, elements.
    + destruct (IH (mkScan (markers sc ++ markerOf e) (nearestStation sc)
                      (nearestDistance sc)))
        as [leading [trailing [sc' [finished
             [Hrun [Hsplit [Hnone [Hmarkers [Hnearest Hend]]]]]]]]].
      exists (e :: leading), trailing, sc', finished.
      split; [exact Hrun|]. split; [cbn [app]; now rewrite Hsplit|].
      split; [intros e' [<- | He']; [exact Hloc | now apply Hnone]|].
      split; [rewrite Hmarkers; cbn [markers flat_map]; now rewrite app_assoc|].
      split; [exact Hnearest | exact Hend].
Qed.

(** X16: the answer to the resource query when the ignition point has been
    cleared in the meantime.  The loop stops at the first fire station
    with coordinates: the hydrants before it have got their markers, the
    elements from it on are dropped, and the label of the nearest fire
    station is not written. *)
Theorem resources_after_reset (elements : list Element) (s : State) :
  fireStartLatLng s = None ->
  let s' := Page.resourcesArrived (Some elements) s in
  panel s' = panel s
  /\ exists leading trailing,
       elements = leading ++ trailing
       /\ (forall e, In e leading -> locatedStation e = false)
       /\ (trailing = []
           \/ exists station rest,
                trailing = station :: rest /\ locatedStation station = true)
       /\ fireResourceMarkers s'
          = fireResourceMarkers s ++ map snd (flat_map markerOf leading).
Proof.
  intros Hfire s'. unfold s', Page.resourcesArrived.
  destruct elements as [|e0 rest].
  - split; [reflexivity|]. exists [], []. cbn [flat_map map app].
    rewrite app_nil_r. repeat split; auto. intros e [].
  - rewrite Hfire.
    destruct (scanElements_without_ignition (e0 :: rest) (mkScan [] None None))
      as [leading [trailing [sc [finished
           [Hrun [Hsplit [Hnone [Hmarkers [Hnearest Hend]]]]]]]]].
    rewrite Hrun. cbn [markers nearestStation app] in Hmarkers, Hnearest.
    rewrite Hnearest, Hmarkers. split.
    + destruct finished; reflexivity.
    + exists leading, trailing. split; [exact Hsplit|].
      split; [exact Hnone|]. split.
      * destruct Hend as [[_ ->] | [_ Hst]]; [now left | now right].
      * destruct finished; reflexivity.
Qed.

Lemma resources_after_reset_witness :
  fireStartLatLng (clearFire script_js ignitedState) = None /\
  panel (Page.resourcesArrived
           (Some [mkElement (Some 1) (Some 1)
                    (Some (mkResourceTags (Some "fire_station"%string)
                             None None))])
           (clearFire script_js ignitedState))
  = panel (clearFire script_js ignitedState).
Proof.
  split; [reflexivity|].
  exact (proj1 (resources_after_reset
                  [mkElement (Some 1) (Some 1)
                     (Some (mkResourceTags (Some "fire_station"%string)
                              None None))]
                  (clearFire script_js ignitedState) eq_refl)).
Defined.

(** ** The handlers of the page *)

Import Page.

(** A tick writes the canvas, the slider, the time label, the running flag
    and the timer queue, and nothing else. *)
Lemma animate_keeps v t total s :
  let s' := fst (animateFireSpread v t total s) in
  fireStartLatLng s' = fireStartLatLng s
  /\ currentCenter s' = currentCenter s
  /\ effectiveSpreadRate s' = effectiveSpreadRate s
  /\ globalWindDegree s' = globalWindDegree s
  /\ globalDirectionalFactor s' = globalDirectionalFactor s
  /\ fireResourceMarkers s' = fireResourceMarkers s
  /\ panel s' = panel s
  /\ latLngToContainerPoint s' = latLngToContainerPoint s.
Proof.
  intros s'. unfold s'.
  destruct (Nat.lt_ge_cases t simulationSteps) as [Hlt | Hge].
  - destruct (fireStartLatLng s) as [ignition|] eqn:Hfire.
    + destruct (animate_tick v t total s ignition Hlt Hfire)
        as [bp [np [wp [_ [_ [_ Hrun]]]]]].
      rewrite Hrun. cbn. repeat split; auto.
    + unfold animateFireSpread.
      assert (Hleb : (simulationSteps <=? t)%nat = false)
        by (apply Nat.leb_gt; exact Hlt).
      rewrite Hleb. cbv zeta.
      change (fireStartLatLng (drawMap s)) with (fireStartLatLng s).
      rewrite Hfire. cbn. repeat split; auto.
  - rewrite tick_last by exact Hge. cbn. repeat split; auto.
Qed.

Lemma fire_keeps v n s :
  let s' := fst (fire v n s) in
  fireStartLatLng s' = fireStartLatLng s
  /\ currentCenter s' = currentCenter s
  /\ effectiveSpreadRate s' = effectiveSpreadRate s
  /\ globalWindDegree s' = globalWindDegree s
  /\ globalDirectionalFactor s' = globalDirectionalFactor s
  /\ fireResourceMarkers s' = fireResourceMarkers s
  /\ panel s' = panel s
  /\ latLngToContainerPoint s' = latLngToContainerPoint s.
Proof.
  intros s'. unfold s', fire.
  destruct (nth_error (timers s) n) as [[t total d | iteration d]|].
  - cbn [runTimer].
    exact (animate_keeps v t total (withTimers (dropNth n (timers s)) s)).
  - cbn [runTimer]. unfold recursiveUpdateEnvData.
    destruct (negb (simulationRunning (withTimers (dropNth n (timers s)) s)));
      cbn; repeat split; auto.
  - cbn. repeat split; auto.
Qed.

Lemma setFireButtonClick_keeps v input s :
  let s' := fst (setFireButtonClick v input s) in
  fireStartLatLng s' = fireStartLatLng s
  /\ currentCenter s' = currentCenter s
  /\ effectiveSpreadRate s' = effectiveSpreadRate s
  /\ globalWindDegree s' = globalWindDegree s
  /\ globalDirectionalFactor s' = globalDirectionalFactor s.
Proof.
  intros s'. unfold s', setFireButtonClick.
  destruct (fireStartLatLng s) as [ignition|] eqn:Hfire.
  - rewrite (simulateFireSpread_start v input s ignition Hfire).
    pose proof (animate_keeps v 0 (totalRealTimeOf input) (withRunning true s))
      as [H1 [H2 [H3 [H4 [H5 _]]]]].
    destruct (animateFireSpread v 0 (totalRealTimeOf input)
                (withRunning true s)) as [s1 e1].
    cbn [fst] in *. unfold recursiveUpdateEnvData.
    destruct (negb (simulationRunning s1)); cbn [fst].
    + rewrite <- Hfire. repeat split; assumption.
    + cbn. rewrite <- Hfire. repeat split; assumption.
  - cbn. rewrite Hfire. repeat split; auto.
Qed.

Lemma resourcesArrived_keeps elements s :
  let s' := resourcesArrived elements s in
  fireStartLatLng s' = fireStartLatLng s
  /\ currentCenter s' = currentCenter s
  /\ effectiveSpreadRate s' = effectiveSpreadRate s
  /\ globalWindDegree s' = globalWindDegree s
  /\ globalDirectionalFactor s' = globalDirectionalFactor s
  /\ simulationRunning s' = simulationRunning s
  /\ timers s' = timers s
  /\ canvas s' = canvas s.
Proof.
  intros s'. unfold s', resourcesArrived.
  destruct elements as [[|e rest]|]; try (repeat split; reflexivity).
  destruct (scanElements (fireStartLatLng s) (e :: rest) (mkScan [] None None))
    as [sc finished].
  destruct finished; [destruct (nearestStation sc)|];
    cbn; repeat split; reflexivity.
Qed.

Lemma drawFire_ignition s : fireStartLatLng (drawFire s) = fireStartLatLng s.
Proof. unfold drawFire. now destruct (fireStartLatLng s) eqn:E. Qed.

Lemma drawFire_center s : currentCenter (drawFire s) = currentCenter s.
Proof. unfold drawFire. now destruct (fireStartLatLng s). Qed.

(** Apart from a click on the map and the reset button, nothing writes the
    ignition point or the reference point of the conversion. *)
Lemma step_keeps_ignition toFixed4 reasoningOnClick v a s :
  (forall latlng, a <> MapClick latlng) ->
  a <> ClearFireButton ->
  fireStartLatLng (step toFixed4 reasoningOnClick v a s) = fireStartLatLng s
  /\ currentCenter (step toFixed4 reasoningOnClick v a s) = currentCenter s.
Proof.
  intros Hclick Hclear.
  destruct a; cbn [step]; try (split; reflexivity).
  - exfalso. now apply (Hclick latlng).
  - split; apply setFireButtonClick_keeps.
  - unfold clearPredictions. cbv zeta.
    change (fireStartLatLng (drawMap s)) with (fireStartLatLng s).
    destruct (fireStartLatLng s) eqn:E;
      cbn [fireStartLatLng currentCenter withClock].
    + rewrite drawFire_ignition, drawFire_center. split; [exact E | reflexivity].
    + split; [exact E | reflexivity].
  - now contradiction Hclear.
  - unfold timeSliderInput. cbv zeta.
    cbn [fireStartLatLng currentCenter withClock].
    rewrite drawFire_ignition, drawFire_center. split; reflexivity.
  - unfold redrawAll. rewrite drawFire_ignition, drawFire_center.
    split; reflexivity.
  - split; apply fire_keeps.
  - destruct cur; split; reflexivity.
  - split; apply resourcesArrived_keeps.
Qed.

(** X17: the ignition point is set by a click on the map when none is set,
    and by nothing else; it is cleared by the reset button, and by nothing
    else.  A click while one is set does nothing at all. *)
Theorem ignition_set_by_click_cleared_by_reset (toFixed4 : R -> string)
    (reasoningOnClick : option string) (v : Variant) (a : Action)
    (s : State) :
  let next := step toFixed4 reasoningOnClick v in
  (a <> ClearFireButton ->
   forall ignition, fireStartLatLng s = Some ignition ->
     fireStartLatLng (next a s) = Some ignition)
  /\ ((forall latlng, a <> MapClick latlng) ->
      fireStartLatLng s = None -> fireStartLatLng (next a s) = None)
  /\ (forall latlng ignition,
        fireStartLatLng s = Some ignition ->
        mapClick toFixed4 reasoningOnClick latlng s = (s, []))
  /\ (forall latlng,
        fireStartLatLng s = None ->
        fireStartLatLng (next (MapClick latlng) s) = Some latlng)
  /\ fireStartLatLng (next ClearFireButton s) = None.
Proof.
  intros next.
  split; [|split; [|split; [|split]]].
  - intros Hclear ignition Hfire.
    destruct a;
      try (unfold next; transitivity (fireStartLatLng s);
           [apply step_keeps_ignition; [intros; discriminate | exact Hclear]
           | exact Hfire]).
    unfold next. cbn [step]. unfold mapClick. now rewrite Hfire.
  - intros Hclick Hfire.
    destruct a;
      try (unfold next; transitivity (fireStartLatLng s);
           [apply step_keeps_ignition; [exact Hclick | discriminate]
           | exact Hfire]).
    reflexivity.
  - intros latlng ignition Hfire. unfold mapClick. now rewrite Hfire.
  - intros latlng Hfire. unfold next. cbn [step]. unfold mapClick.
    rewrite Hfire. unfold updateInfoBox, displayNearbyFireResources.
    destruct reasoningOnClick; reflexivity.
  - reflexivity.
Qed.

Lemma mapClick_fresh toFixed4 reasoningOnClick latlng s :
  fireStartLatLng s = None ->
  let s' := fst (mapClick toFixed4 reasoningOnClick latlng s) in
  fireStartLatLng s' = Some latlng /\ currentCenter s' = Some latlng.
Proof.
  intros Hfire s'. unfold s', mapClick. rewrite Hfire.
  unfold updateInfoBox, displayNearbyFireResources.
  destruct reasoningOnClick; split; reflexivity.
Qed.

(** X18: from the moment the script is loaded, whenever an ignition point
    is set the reference point of the meter-to-pixel conversion is this
    very point; so the conversion of [script.js], which prefers the
    reference point, and the conversion of the variant, which reads the
    ignition point, give the same number of pixels. *)
Theorem center_is_ignition (toFixed4 : R -> string)
    (reasoningOnClick : option string) (v : Variant)
    (projection : LatLng -> Point) (s : State) (ignition : LatLng) :
  reachable toFixed4 reasoningOnClick v projection s ->
  fireStartLatLng s = Some ignition ->
  currentCenter s = Some ignition
  /\ forall meters,
       metersToPixels script_js s meters
       = metersToPixels script_variant s meters.
Proof.
  intros Hreach.
  assert (Hinv : forall ll, fireStartLatLng s = Some ll ->
                            currentCenter s = Some ll).
  { induction Hreach as [|a s Hreach IH]; [discriminate|].
    intros ll Hll.
    pose proof (step_keeps_ignition toFixed4 reasoningOnClick v a s) as Hk.
    destruct (fireStartLatLng s) as [old|] eqn:Hold.
    - destruct a;
        try (destruct (Hk ltac:(intros; discriminate) ltac:(discriminate))
               as [Hi Hc];
             rewrite Hc; apply IH; rewrite <- Hi; exact Hll).
      + cbn [step] in *. unfold mapClick in *. rewrite Hold in *.
        cbn [fst] in *. apply IH. rewrite <- Hold. exact Hll.
    - destruct a;
        try (destruct (Hk ltac:(intros; discriminate) ltac:(discriminate))
               as [Hi Hc];
             rewrite Hi in Hll; discriminate).
      + pose proof (mapClick_fresh toFixed4 reasoningOnClick latlng s Hold)
          as [Hi Hc].
        cbn [step] in *. rewrite Hi in Hll. injection Hll as <-. exact Hc. }
  intros Hfire. split; [now apply Hinv|].
  intros meters. unfold metersToPixels.
  cbn [prefersCurrentCenter script_js script_variant].
  now rewrite (Hinv ignition Hfire), Hfire.
Qed.

Lemma center_is_ignition_witness :
  exists s,
    reachable (fun _ => EmptyString) None script_js plainProjection s
    /\ fireStartLatLng s = Some (mkLatLng 0 0)
    /\ currentCenter s = Some (mkLatLng 0 0).
Proof.
  exists (step (fun _ => EmptyString) None script_js (MapClick (mkLatLng 0 0))
            (initialState plainProjection)).
  assert (Hreach : reachable (fun _ => EmptyString) None script_js
                     plainProjection
                     (step (fun _ => EmptyString) None script_js
                        (MapClick (mkLatLng 0 0))
                        (initialState plainProjection)))
    by (apply reachable_step; apply reachable_loaded).
  split; [exact Hreach|]. split; [reflexivity|].
  exact (proj1 (center_is_ignition (fun _ => EmptyString) None script_js
                  plainProjection _ (mkLatLng 0 0) Hreach eq_refl)).
Defined.

(** X19: who writes the environmental globals.  The rate is written by the
    terrain callback alone, the wind direction and the directional factor
    by the weather callback alone, the running flag by the start button
    and by an expiring timer alone. *)
Theorem writers_of_the_globals (toFixed4 : R -> string)
    (reasoningOnClick : option string) (v : Variant) (a : Action)
    (s : State) :
  let s' := step toFixed4 reasoningOnClick v a s in
  ((forall cur slope landCoverTag,
      a <> TerrainArrives cur slope landCoverTag) ->
   effectiveSpreadRate s' = effectiveSpreadRate s)
  /\ ((forall cur, a <> WeatherArrives cur) ->
      globalWindDegree s' = globalWindDegree s
      /\ globalDirectionalFactor s' = globalDirectionalFactor s)
  /\ ((forall input, a <> SetFireButton input) ->
      (forall n, a <> TimerExpires n) ->
      simulationRunning s' = simulationRunning s).
Proof.
  intros s'. unfold s'. split; [|split].
  - intros Hterrain. destruct a; cbn [step]; try reflexivity.
    + unfold mapClick. destruct (fireStartLatLng s); [reflexivity|].
      unfold updateInfoBox, displayNearbyFireResources.
      destruct reasoningOnClick; reflexivity.
    + apply setFireButtonClick_keeps.
    + unfold clearPredictions. cbv zeta.
      change (fireStartLatLng (drawMap s)) with (fireStartLatLng s).
      destruct (fireStartLatLng s) eqn:E; [|reflexivity].
      unfold drawFire.
      change (fireStartLatLng (drawMap s)) with (fireStartLatLng s).
      rewrite E. reflexivity.
    + unfold timeSliderInput, drawFire. cbv zeta.
      change (fireStartLatLng (drawMap s)) with (fireStartLatLng s).
      destruct (fireStartLatLng s); reflexivity.
    + unfold redrawAll, drawFire.
      destruct (fireStartLatLng (drawMap (withProjection projection s)));
        reflexivity.
    + apply fire_keeps.
    + destruct cur; reflexivity.
    + exfalso. eapply Hterrain. reflexivity.
    + apply resourcesArrived_keeps.
  - intros Hweather. destruct a; cbn [step]; try (split; reflexivity).
    + unfold mapClick. destruct (fireStartLatLng s); [split; reflexivity|].
      unfold updateInfoBox, displayNearbyFireResources.
      destruct reasoningOnClick; split; reflexivity.
    + split; apply setFireButtonClick_keeps.
    + unfold clearPredictions. cbv zeta.
      change (fireStartLatLng (drawMap s)) with (fireStartLatLng s).
      destruct (fireStartLatLng s) eqn:E; [|split; reflexivity].
      unfold drawFire.
      change (fireStartLatLng (drawMap s)) with (fireStartLatLng s).
      rewrite E. split; reflexivity.
    + unfold timeSliderInput, drawFire. cbv zeta.
      change (fireStartLatLng (drawMap s)) with (fireStartLatLng s).
      destruct (fireStartLatLng s); split; reflexivity.
    + unfold redrawAll, drawFire.
      destruct (fireStartLatLng (drawMap (withProjection projection s)));
        split; reflexivity.
    + split; apply fire_keeps.
    + exfalso. eapply Hweather. reflexivity.
    + split; apply resourcesArrived_keeps.
  - intros Hstart Htimer. destruct a; cbn [step]; try reflexivity.
    + unfold mapClick. destruct (fireStartLatLng s); [reflexivity|].
      unfold updateInfoBox, displayNearbyFireResources.
      destruct reasoningOnClick; reflexivity.
    + exfalso. eapply Hstart. reflexivity.
    + unfold clearPredictions. cbv zeta.
      change (fireStartLatLng (drawMap s)) with (fireStartLatLng s).
      destruct (fireStartLatLng s) eqn:E; [|reflexivity].
      unfold drawFire.
      change (fireStartLatLng (drawMap s)) with (fireStartLatLng s).
      rewrite E. reflexivity.
    + unfold timeSliderInput, drawFire. cbv zeta.
      change (fireStartLatLng (drawMap s)) with (fireStartLatLng s).
      destruct (fireStartLatLng s); reflexivity.
    + unfold redrawAll, drawFire.
      destruct (fireStartLatLng (drawMap (withProjection projection s)));
        reflexivity.
    + exfalso. eapply Htimer. reflexivity.
    + destruct cur; reflexivity.
    + apply resourcesArrived_keeps.
Qed.

Lemma drawFire_drawMap s :
  drawFire (drawMap s)
  = withCanvas
      match fireStartLatLng s with
      | Some ll => [FireDot (latLngToContainerPoint s ll)]
      | None => []
      end s.
Proof.
  unfold drawFire.
  change (fireStartLatLng (drawMap s)) with (fireStartLatLng s).
  destruct (fireStartLatLng s); reflexivity.
Qed.

(** X20: moving or zooming the map, the button that clears the
    predictions and moving the time slider each leave at most the ignition
    dot on the canvas, never a fire front, and none of them touches the
    running flag or the pending timers: the slider shows no front for the
    time index it is moved to, and during a run the fronts are gone until
    the next tick. *)
Theorem fronts_wiped_by_redraw (value : nat) (projection : LatLng -> Point)
    (s : State) :
  let wiped s' :=
    canvas s'
    = match fireStartLatLng s with
      | Some ll => [FireDot (latLngToContainerPoint s' ll)]
      | None => []
      end
    /\ existsb isPolygon (canvas s') = false
    /\ simulationRunning s' = simulationRunning s
    /\ timers s' = timers s in
  wiped (redrawAll (withProjection projection s))
  /\ wiped (clearPredictions s)
  /\ wiped (timeSliderInput value s)
  /\ timeSlider (timeSliderInput value s) = value.
Proof.
  intros wiped. unfold wiped. split; [|split; [|split]].
  - unfold redrawAll. rewrite drawFire_drawMap.
    change (fireStartLatLng (withProjection projection s))
      with (fireStartLatLng s).
    destruct (fireStartLatLng s); repeat split; reflexivity.
  - unfold clearPredictions. cbv zeta.
    change (fireStartLatLng (drawMap s)) with (fireStartLatLng s).
    destruct (fireStartLatLng s) eqn:E.
    + rewrite drawFire_drawMap, E. repeat split; reflexivity.
    + repeat split; reflexivity.
  - unfold timeSliderInput. cbv zeta. rewrite drawFire_drawMap.
    destruct (fireStartLatLng s); repeat split; reflexivity.
  - reflexivity.
Qed.

(** X21: a tick draws its frame from scratch.  Below the step count its
    outcome does not depend on what the canvas showed before, and with an
    ignition point set it does not depend on the slider and the time label
    either; so a tick after a redraw, after the predictions were cleared
    or after the slider was moved is the tick that would have happened
    anyway. *)
Theorem tick_draws_from_scratch (v : Variant) (t : nat) (total : R)
    (s : State) :
  (t < simulationSteps)%nat ->
  (forall shapes,
     animateFireSpread v t total (withCanvas shapes s)
     = animateFireSpread v t total s)
  /\ (forall ignition, fireStartLatLng s = Some ignition ->
      (forall shapes i minutes,
         animateFireSpread v t total (withClock i minutes (withCanvas shapes s))
         = animateFireSpread v t total s)
      /\ animateFireSpread v t total (redrawAll s)
         = animateFireSpread v t total s
      /\ animateFireSpread v t total (clearPredictions s)
         = animateFireSpread v t total s
      /\ forall value,
           animateFireSpread v t total (timeSliderInput value s)
           = animateFireSpread v t total s).
Proof.
  intros Ht.
  assert (Hleb : (simulationSteps <=? t)%nat = false)
    by (apply Nat.leb_gt; exact Ht).
  assert (Hcanvas : forall shapes,
            animateFireSpread v t total (withCanvas shapes s)
            = animateFireSpread v t total s).
  { intros shapes. unfold animateFireSpread. rewrite Hleb. reflexivity. }
  split; [exact Hcanvas|].
  intros ignition Hfire.
  assert (Hclock : forall shapes i minutes,
            animateFireSpread v t total
              (withClock i minutes (withCanvas shapes s))
            = animateFireSpread v t total s).
  { intros shapes i minutes.
    destruct (animate_tick v t total s ignition Ht Hfire)
      as [bp [np [wp [Hb [Hn [Hw Hrun]]]]]].
    destruct (animate_tick v t total
                (withClock i minutes (withCanvas shapes s)) ignition Ht Hfire)
      as [bp' [np' [wp' [Hb' [Hn' [Hw' Hrun']]]]]].
    change (scenarioRadiusPx v (withClock i minutes (withCanvas shapes s)))
      with (scenarioRadiusPx v s) in Hb', Hn', Hw'.
    cbn [globalWindDegree globalDirectionalFactor withClock withCanvas]
      in Hb', Hn', Hw'.
    rewrite Hb in Hb'. rewrite Hn in Hn'. rewrite Hw in Hw'.
    apply Some_inj in Hb', Hn', Hw'. subst bp' np' wp'.
    rewrite Hrun, Hrun'. reflexivity. }
  split; [exact Hclock|]. split; [|split].
  - unfold redrawAll. rewrite drawFire_drawMap. apply Hcanvas.
  - unfold clearPredictions. cbv zeta.
    change (fireStartLatLng (drawMap s)) with (fireStartLatLng s).
    rewrite Hfire, drawFire_drawMap. apply Hclock.
  - intros value. unfold timeSliderInput. cbv zeta.
    rewrite drawFire_drawMap. apply Hclock.
Qed.

Lemma tick_draws_from_scratch_witness :
  (3 < simulationSteps)%nat /\
  forall shapes,
    animateFireSpread script_js 3 10000 (withCanvas shapes ignitedState)
    = animateFireSpread script_js 3 10000 ignitedState.
Proof.
  assert (Ht : (3 < simulationSteps)%nat) by (unfold simulationSteps; lia).
  split; [exact Ht|].
  exact (proj1 (tick_draws_from_scratch script_js 3 10000 ignitedState Ht)).
Defined.

(** ** The animator: first frame, second start, the polls' end *)

Lemma boundary_single_point_at_zero w f :
  getCustomFireFrontPoints 630 0 w f None = Some [mkPoint 0 0].
Proof.
  rewrite getCustomFireFrontPoints_fold by apply le_n. f_equal.
  rewrite (sampled_single_point 0 (w * PI / 180) ((f - 1) * 1.5)
             (minSpacingOf None) 628).
  - now rewrite polarPoint_zero.
  - rewrite Rabs_R0. simpl. lra.
Qed.

(** Zero meters are zero pixels, whenever there is a point to convert at. *)
Lemma metersToPixels_zero v s ignition :
  fireStartLatLng s = Some ignition -> metersToPixels v s 0 = 0.
Proof.
  intros Hfire. unfold metersToPixels. rewrite Hfire.
  assert (Hzero : forall c, Rabs
            (x (latLngToContainerPoint s
                  (mkLatLng (lat c)
                     (lng c + 0 / (40075000 * cos (lat c * PI / 180) / 360))))
             - x (latLngToContainerPoint s c)) = 0).
  { intros [la lo]. cbn [lat lng].
    replace (lo + 0 / (40075000 * cos (la * PI / 180) / 360)) with lo
      by (unfold Rdiv; ring).
    rewrite Rminus_diag. apply Rabs_R0. }
  destruct (prefersCurrentCenter v); [destruct (currentCenter s)|];
    apply Hzero.
Qed.

(** X22: the frame of time index 0, the one the start button presents, is
    degenerate whatever the rate and the wind: next to the ignition dot it
    holds three polygons of one vertex each, at the screen position of the
    ignition point. *)
Theorem first_frame_is_a_point (v : Variant) (total : R) (s : State)
    (ignition : LatLng) :
  fireStartLatLng s = Some ignition ->
  let cp := latLngToContainerPoint s ignition in
  canvas (fst (animateFireSpread v 0 total s))
  = frame cp [mkPoint 0 0] [mkPoint 0 0] [mkPoint 0 0]
  /\ frame cp [mkPoint 0 0] [mkPoint 0 0] [mkPoint 0 0]
     = [ FireDot cp;
         Polygon [mkPoint (x cp + 0) (y cp + 0)] "green" "rgba(0,255,0,0.3)";
         Polygon [mkPoint (x cp + 0) (y cp + 0)] "yellow"
           "rgba(255,255,0,0.3)";
         Polygon [mkPoint (x cp + 0) (y cp + 0)] "orange"
           "rgba(255,165,0,0.3)" ].
Proof.
  intros Hfire cp. split; [|reflexivity].
  assert (Hzero : forall m, scenarioRadiusPx v s 0 m = 0).
  { intros m. unfold scenarioRadiusPx, scenarioRadius.
    replace (INR 0 * effectiveSpreadRate s * m) with 0 by (simpl; ring).
    rewrite (metersToPixels_zero v s ignition Hfire). ring. }
  assert (Hpoint : forall w f,
            getCustomFireFrontPoints samplerDepth 0 w f None
            = Some [mkPoint 0 0]).
  { intros w f. unfold samplerDepth.
    rewrite boundary_single_point_at_zero. reflexivity. }
  destruct (animate_tick v 0 total s ignition) as
    [bp [np [wp [Hb [Hn [Hw Hrun]]]]]];
    [unfold simulationSteps; lia | exact Hfire |].
  rewrite Hzero, Hpoint in Hb, Hn, Hw.
  apply Some_inj in Hb, Hn, Hw. subst bp np wp.
  rewrite Hrun. reflexivity.
Qed.

Lemma first_frame_is_a_point_witness :
  fireStartLatLng ignitedState = Some (mkLatLng 0 0) /\
  canvas (fst (animateFireSpread script_js 0 10000 ignitedState))
  = frame (latLngToContainerPoint ignitedState (mkLatLng 0 0))
      [mkPoint 0 0] [mkPoint 0 0] [mkPoint 0 0].
Proof.
  split; [reflexivity|].
  exact (proj1 (first_frame_is_a_point script_js 10000 ignitedState
                  (mkLatLng 0 0) eq_refl)).
Defined.

(** X23: starting is not guarded by the running flag.  While a run is
    under way with the tick for time index [k] pending, starting again
    presents time index 0 again and leaves two animator ticks pending:
    the one for [k] and a new one for time index 1. *)
Theorem second_start_adds_a_chain (v : Variant) (simRunTimeSec : option R)
    (k : nat) (s : State) (ignition : LatLng) :
  underWay ignition k s ->
  exists s1,
    simulateFireSpread v simRunTimeSec s = (s1, [Presented 0])
    /\ simulationRunning s1 = true
    /\ pendingTicks (timers s1) = [k; 1%nat].
Proof.
  intros [Hfire [Hflag [Hticks Hk]]].
  rewrite (simulateFireSpread_start v simRunTimeSec s ignition Hfire).
  destruct (tick_effect v 0 (totalRealTimeOf simRunTimeSec)
              (withRunning true s) ignition)
    as [s1 [Hrun [_ [_ [Hr1 [_ [_ Ht1]]]]]]];
    [unfold simulationSteps; lia | exact Hfire |].
  exists s1. split; [exact Hrun|]. split; [exact Hr1|].
  rewrite Ht1. cbn [timers withRunning].
  rewrite pendingTicks_app, Hticks. reflexivity.
Qed.

Lemma second_start_adds_a_chain_witness :
  exists s,
    underWay (mkLatLng 0 0) 1 s
    /\ exists s1,
         simulateFireSpread script_js None s = (s1, [Presented 0])
         /\ simulationRunning s1 = true
         /\ pendingTicks (timers s1) = [1%nat; 1%nat].
Proof.
  destruct (setFireButtonClick_start script_js None ignitedState
              (mkLatLng 0 0) eq_refl) as [s [_ [Hfire [Hflag Htimers]]]].
  assert (Hway : underWay (mkLatLng 0 0) 1 s).
  { split; [exact Hfire|]. split; [exact Hflag|]. split.
    - rewrite Htimers. reflexivity.
    - unfold simulationSteps. apply le_S_n. apply le_n_S.
      repeat constructor. }
  exists s. split; [exact Hway|].
  exact (second_start_adds_a_chain script_js None 1 s (mkLatLng 0 0) Hway).
Defined.

(** Once the run is over, the oldest pending timer is a poll, and when it
    expires it leaves the queue without sending a request and without a
    successor. *)
Lemma fire_complete_oldest v s t queue :
  complete s -> timers s = t :: queue ->
  fire v 0 s = (withTimers queue s, []).
Proof.
  intros [Hflag Hticks] Hq. unfold fire. rewrite Hq. cbn [nth_error dropNth].
  rewrite Hq in Hticks. destruct t as [i total d | iteration d].
  - cbn [pendingTicks] in Hticks. discriminate.
  - cbn [runTimer]. unfold recursiveUpdateEnvData.
    cbn [simulationRunning withTimers]. now rewrite Hflag.
Qed.

Lemma fireOldest_complete v n : forall s,
  complete s -> length (timers s) = n ->
  exists s', fireOldest v n s = (s', []) /\ timers s' = [] /\ complete s'.
Proof.
  induction n as [|n IH]; intros s Hdone Hlen.
  - exists s. split; [reflexivity|]. split; [|exact Hdone].
    now apply length_zero_iff_nil.
  - destruct (timers s) as [|t queue] eqn:Hq; [discriminate|].
    cbn [fireOldest]. rewrite (fire_complete_oldest v s t queue Hdone Hq).
    destruct (IH (withTimers queue s)) as [s' [Hrun [Hempty Hdone']]].
    + destruct Hdone as [Hflag Hticks]. split; [exact Hflag|].
      cbn [timers withTimers]. rewrite Hq in Hticks.
      destruct t; [discriminate | exact Hticks].
    + cbn [timers withTimers]. cbn [length] in Hlen. lia.
    + rewrite Hrun. exists s'. split; [reflexivity|].
      split; [exact Hempty | exact Hdone'].
Qed.

(** X24: the polls end with the run.  Once the run is over (flag off, no
    animator tick pending), whatever expires and in whatever order, no
    frame is presented, no request is sent and the run stays over; and
    when each pending poll has expired the timer queue is empty. *)
Theorem polls_end_with_the_run (v : Variant) (s : State) :
  complete s ->
  (forall schedule,
     exists s', run v schedule s = (s', []) /\ complete s')
  /\ exists s',
       fireOldest v (length (timers s)) s = (s', [])
       /\ timers s' = [] /\ complete s'.
Proof.
  intros Hdone. split.
  - intros schedule. now apply run_complete.
  - now apply fireOldest_complete.
Qed.

Lemma polls_end_with_the_run_witness :
  complete (withTimers [EnvTimer 5 1000] ignitedState) /\
  exists s',
    fireOldest script_js
      (length (timers (withTimers [EnvTimer 5 1000] ignitedState)))
      (withTimers [EnvTimer 5 1000] ignitedState) = (s', [])
    /\ timers s' = [] /\ complete s'.
Proof.
  assert (Hdone : complete (withTimers [EnvTimer 5 1000] ignitedState))
    by (split; reflexivity).
  split; [exact Hdone|].
  exact (proj2 (polls_end_with_the_run script_js
                  (withTimers [EnvTimer 5 1000] ignitedState) Hdone)).
Defined.

(** X25: the meter-to-pixel conversion around a reset.  With an ignition
    point set the conversion never returns a negative number.  After a
    reset the variant has no point to convert at and returns the meters
    as they are, while [script.js] goes on converting at the reference
    point of the last click. *)
Theorem conversion_after_reset (v : Variant) (s : State) (meters : R) :
  (forall ignition, fireStartLatLng s = Some ignition ->
     0 <= metersToPixels v s meters)
  /\ metersToPixels script_variant (clearFire v s) meters = meters
  /\ (forall center, currentCenter s = Some center ->
        metersToPixels script_js (clearFire v s) meters
        = metersToPixels script_js s meters)
  /\ (currentCenter s = None ->
      metersToPixels script_js (clearFire v s) meters = meters).
Proof.
  split; [|split; [|split]].
  - intros ignition Hfire. unfold metersToPixels. rewrite Hfire.
    destruct (prefersCurrentCenter v); [destruct (currentCenter s)|];
      apply Rabs_pos.
  - reflexivity.
  - intros center Hcenter. unfold metersToPixels.
    cbn [prefersCurrentCenter script_js currentCenter clearFire
         latLngToContainerPoint].
    now rewrite Hcenter.
  - intros Hcenter. unfold metersToPixels.
    cbn [prefersCurrentCenter script_js currentCenter clearFire
         fireStartLatLng].
    now rewrite Hcenter.
Qed.

(** X26: the start button, then ticks and polls expiring in any order
    whatever: the time indices presented are 0, 1, 2, ... in this order,
    without a gap and without a repetition, up to at most
    [simulationSteps - 1]; and then either the run is still under way with
    exactly the next tick pending, or all [simulationSteps] frames have
    been presented and the run is over. *)
Theorem frames_in_order_for_any_schedule (v : Variant)
    (simRunTimeSec : option R) (s : State) (ignition : LatLng)
    (schedule : list nat) :
  fireStartLatLng s = Some ignition ->
  pendingTicks (timers s) = [] ->
  exists s1 e1 s2 e2 k,
    setFireButtonClick v simRunTimeSec s = (s1, e1)
    /\ run v schedule s1 = (s2, e2)
    /\ (1 <= k <= simulationSteps)%nat
    /\ presented (e1 ++ e2) = seq 0 k
    /\ (underWay ignition k s2 \/ (k = simulationSteps /\ complete s2)).
Proof.
  intros Hfire Hnone.
  exact (button_then_any_schedule v simRunTimeSec s ignition schedule
           Hfire Hnone).
Qed.

Lemma frames_in_order_for_any_schedule_witness :
  fireStartLatLng ignitedState = Some (mkLatLng 0 0) /\
  pendingTicks (timers ignitedState) = [] /\
  exists s1 e1 s2 e2 k,
    setFireButtonClick script_js None ignitedState = (s1, e1)
    /\ run script_js [1%nat; 0%nat; 0%nat] s1 = (s2, e2)
    /\ (1 <= k <= simulationSteps)%nat
    /\ presented (e1 ++ e2) = seq 0 k
    /\ (underWay (mkLatLng 0 0) k s2 \/ (k = simulationSteps /\ complete s2)).
Proof.
  split; [reflexivity|]. split; [reflexivity|].
  exact (frames_in_order_for_any_schedule script_js None ignitedState
           (mkLatLng 0 0) [1%nat; 0%nat; 0%nat] eq_refl eq_refl).
Defined.

(** ** A reset while a run is under way *)

(** With the flag on and no animator tick pending, an expiry changes
    neither: a poll that expires puts its successor in the queue. *)
Lemma fire_stranded v n s :
  simulationRunning s = true ->
  pendingTicks (timers s) = [] ->
  simulationRunning (fst (fire v n s)) = true
  /\ pendingTicks (timers (fst (fire v n s))) = []
  /\ length (timers (fst (fire v n s))) = length (timers s).
Proof.
  intros Hflag Hticks. unfold fire.
  destruct (nth_error (timers s) n) as [t|] eqn:Hn.
  - destruct (dropNth_split n (timers s) t Hn) as [q1 [q2 [Hq Hdrop]]].
    rewrite Hdrop. rewrite Hq, pendingTicks_app in Hticks.
    destruct t as [i total d | iteration d]; cbn [runTimer].
    + cbn [pendingTicks] in Hticks. destruct (pendingTicks q1); discriminate.
    + cbn [pendingTicks] in Hticks. unfold recursiveUpdateEnvData.
      cbn [simulationRunning withTimers]. rewrite Hflag.
      cbn [negb fst setTimeout simulationRunning timers withTimers].
      split; [exact Hflag|]. split.
      * rewrite pendingTicks_app. cbn [pendingTicks].
        rewrite app_nil_r, pendingTicks_app. exact Hticks.
      * rewrite Hq, !length_app. cbn [length]. lia.
  - cbn [fst]. split; [exact Hflag|]. split; [exact Hticks | reflexivity].
Qed.

Lemma run_stranded v schedule : forall s,
  simulationRunning s = true ->
  pendingTicks (timers s) = [] ->
  simulationRunning (fst (run v schedule s)) = true
  /\ length (timers (fst (run v schedule s))) = length (timers s).
Proof.
  induction schedule as [|n schedule IH]; intros s Hflag Hticks.
  - split; [exact Hflag | reflexivity].
  - cbn [run].
    destruct (fire_stranded v n s Hflag Hticks) as [Hf1 [Ht1 Hl1]].
    destruct (fire v n s) as [s1 e1]. cbn [fst] in *.
    destruct (IH s1 Hf1 Ht1) as [Hf2 Hl2].
    destruct (run v schedule s1) as [s2 e2]. cbn [fst] in *.
    split; [exact Hf2|]. now rewrite Hl2.
Qed.

(** A click on the map touches neither the running flag nor the timer
    queue. *)
Lemma mapClick_keeps_run toFixed4 reasoningOnClick latlng s :
  simulationRunning (fst (mapClick toFixed4 reasoningOnClick latlng s))
  = simulationRunning s
  /\ timers (fst (mapClick toFixed4 reasoningOnClick latlng s)) = timers s.
Proof.
  unfold mapClick. destruct (fireStartLatLng s); [split; reflexivity|].
  unfold updateInfoBox, displayNearbyFireResources.
  destruct reasoningOnClick; split; reflexivity.
Qed.

(** C9: the script at the failing input.  On the example page the start
    button is pressed and then, with tick 1 and poll 2 pending, the reset
    button.  The reset leaves the running flag on and both timers pending.
    When the tick's timer expires the tick wipes the canvas and aborts on
    the cleared ignition point; it schedules nothing and leaves the flag
    on, and from then on the flag stays on and one poll stays pending
    whatever expires.  When the poll's timer expires the poll schedules
    its successor, and after a new click on the map it sends a request
    again. *)
Theorem C9_reset_during_run :
  exists s1 e1 total,
    setFireButtonClick script_js None ignitedState = (s1, e1)
    /\ simulationRunning (clearFire script_js s1) = true
    /\ timers (clearFire script_js s1)
       = [AnimateTimer 1 total (tickDelay total); EnvTimer 2 1000]
    /\ (exists s3,
          fire script_js 0 (clearFire script_js s1) = (s3, [Thrown])
          /\ canvas s3 = []
          /\ simulationRunning s3 = true
          /\ timers s3 = [EnvTimer 2 1000]
          /\ forall schedule,
               simulationRunning (fst (run script_js schedule s3)) = true
               /\ length (timers (fst (run script_js schedule s3))) = 1%nat)
    /\ timers (fst (fire script_js 1 (clearFire script_js s1)))
       = [AnimateTimer 1 total (tickDelay total); EnvTimer 3 1000]
    /\ forall latlng,
         snd (fire script_js 1
                (fst (Page.mapClick (fun _ => EmptyString) None latlng
                        (clearFire script_js s1))))
         = [EnvRequest latlng].
Proof.
  destruct (setFireButtonClick_start script_js None ignitedState
              (mkLatLng 0 0) eq_refl) as [s1 [Hrun [_ [Hflag Htimers]]]].
  cbn [timers ignitedState app] in Htimers.
  exists s1, [Presented 0; EnvRequest (mkLatLng 0 0)], (totalRealTimeOf None).
  split; [exact Hrun|]. split; [exact Hflag|]. split; [exact Htimers|].
  split; [|split].
  - eexists. split.
    + unfold fire. cbn [timers clearFire]. rewrite Htimers.
      cbn [nth_error dropNth runTimer]. unfold animateFireSpread.
      change (simulationSteps <=? 1)%nat with false. cbv zeta.
      cbn [fireStartLatLng drawMap withCanvas withTimers clearFire].
      reflexivity.
    + cbn [canvas simulationRunning timers drawMap withCanvas withTimers
           clearFire].
      split; [reflexivity|]. split; [exact Hflag|]. split; [reflexivity|].
      intros schedule. apply run_stranded.
      * exact Hflag.
      * reflexivity.
  - unfold fire. cbn [timers clearFire]. rewrite Htimers.
    cbn [nth_error dropNth runTimer]. unfold recursiveUpdateEnvData.
    cbn [simulationRunning withTimers clearFire]. rewrite Hflag.
    reflexivity.
  - intros latlng.
    pose proof (mapClick_fresh (fun _ => EmptyString) None latlng
                  (clearFire script_js s1) eq_refl) as [Hfire4 _].
    pose proof (mapClick_keeps_run (fun _ => EmptyString) None latlng
                  (clearFire script_js s1)) as [Hflag4 Htimers4].
    cbn [simulationRunning timers clearFire] in Hflag4, Htimers4.
    rewrite Hflag in Hflag4. rewrite Htimers in Htimers4.
    unfold fire. rewrite Htimers4. cbn [nth_error dropNth runTimer].
    unfold recursiveUpdateEnvData.
    cbn [simulationRunning fireStartLatLng withTimers].
    rewrite Hflag4, Hfire4. reflexivity.
Qed.
